(** * launchmeow: the Flap (BSC) service

    A shallow embedding of [src/services/flap/flap.ts]: the CREATE2 vanity
    salt search [findVanityTokenSalt] and the three methods of
    [FlapService] that talk to the chain ([createToken], [sellTokens],
    [sellAllTokens]).

    The service is written against the [viem] SDK.  The SDK functions the
    service calls ([keccak256], [toHex], [toBytes], [getContractAddress])
    are pure, so they are embedded as executable functions too, down to the
    Keccak-f[1600] permutation, and checked on known answers
    ([KnownAnswers]): every statement below can be evaluated on concrete
    inputs.  What the SDK does over the network ([writeContract],
    [readContract], [waitForTransactionReceipt]), the metadata upload and
    the random generator are answers of a [World]; [parseEther] and
    [decodeEventLog], whose results depend on data outside the file, are
    parameters. *)

From Stdlib Require Import Arith NArith List String Ascii Bool Lia.
From Stdlib.Strings Require Import Byte.
Import ListNotations.

Local Open Scope nat_scope.

(** ** Keccak-256

    The hash behind [keccak256] (original Keccak padding [0x01], rate 136
    bytes, 32 bytes of output).  Lanes are 64-bit words held in [N]; the
    state is the list of the 25 lanes, lane [(x, y)] at index [x + 5 * y]. *)

Module Keccak.

Definition lane_mask : N := 0xFFFFFFFFFFFFFFFF.

Definition rotl64 (x : N) (n : N) : N :=
  N.land (N.lor (N.shiftl x n) (N.shiftr x (64 - n))) lane_mask.

Definition round_constants : list N :=
  [ 0x0000000000000001; 0x0000000000008082; 0x800000000000808A;
    0x8000000080008000; 0x000000000000808B; 0x0000000080000001;
    0x8000000080008081; 0x8000000000008009; 0x000000000000008A;
    0x0000000000000088; 0x0000000080008009; 0x000000008000000A;
    0x000000008000808B; 0x800000000000008B; 0x8000000000008089;
    0x8000000000008003; 0x8000000000008002; 0x8000000000000080;
    0x000000000000800A; 0x800000008000000A; 0x8000000080008081;
    0x8000000000008080; 0x0000000080000001; 0x8000000080008008 ]%N.

Definition rotation_offsets : list N :=
  [  0;  1; 62; 28; 27;
    36; 44;  6; 55; 20;
     3; 10; 43; 25; 39;
    41; 45; 15; 21;  8;
    18;  2; 61; 56; 14 ]%N.

Definition lane (A : list N) (x y : nat) : N :=
  nth (x mod 5 + 5 * (y mod 5)) A 0%N.

Definition coords : list (nat * nat) :=
  flat_map (fun y => map (fun x => (x, y)) (seq 0 5)) (seq 0 5).

Definition theta (A : list N) : list N :=
  let C := map (fun x => fold_left N.lxor (map (lane A x) (seq 0 5)) 0%N)
               (seq 0 5) in
  let D := map (fun x => N.lxor (nth ((x + 4) mod 5) C 0%N)
                                (rotl64 (nth ((x + 1) mod 5) C 0%N) 1))
               (seq 0 5) in
  map (fun '(x, y) => N.lxor (lane A x y) (nth x D 0%N)) coords.

(** rho and pi in one pass: lane [(X, Y)] of the result is lane [(x, y)] of
    the argument rotated by its offset, where [(X, Y) = (y, 2x + 3y)]. *)
Definition rho_pi (A : list N) : list N :=
  map (fun '(X, Y) =>
         let x := (X + 3 * Y) mod 5 in
         let y := X in
         rotl64 (lane A x y) (nth (x + 5 * y) rotation_offsets 0%N)) coords.

Definition chi (B : list N) : list N :=
  map (fun '(x, y) =>
         N.lxor (lane B x y)
                (N.ldiff (lane B (x + 2) y) (lane B (x + 1) y))) coords.

Definition iota (rc : N) (A : list N) : list N :=
  match A with
  | [] => []
  | a :: rest => N.lxor a rc :: rest
  end.

Definition round (A : list N) (rc : N) : list N :=
  iota rc (chi (rho_pi (theta A))).

Definition keccak_f1600 (A : list N) : list N :=
  fold_left round round_constants A.

Definition rate : nat := 136.

Definition pad (msg : list N) : list N :=
  let q := rate - List.length msg mod rate in
  if q =? 1 then msg ++ [0x81%N]
  else msg ++ [0x01%N] ++ repeat 0%N (q - 2) ++ [0x80%N].

Fixpoint le_lane (bs : list N) : N :=
  match bs with
  | [] => 0%N
  | b :: bs' => (b + 256 * le_lane bs')%N
  end.

Fixpoint lanes_of_block (n : nat) (bs : list N) : list N :=
  match n with
  | O => []
  | S n' => le_lane (firstn 8 bs) :: lanes_of_block n' (skipn 8 bs)
  end.

Fixpoint xor_lanes (A B : list N) : list N :=
  match A, B with
  | a :: A', b :: B' => N.lxor a b :: xor_lanes A' B'
  | _, [] => A
  | [], _ => []
  end.

Fixpoint absorb (blocks : nat) (A : list N) (bs : list N) : list N :=
  match blocks with
  | O => A
  | S n =>
      absorb n
        (keccak_f1600 (xor_lanes A (lanes_of_block 17 (firstn rate bs))))
        (skipn rate bs)
  end.

Definition state_byte (A : list N) (i : nat) : N :=
  N.land (N.shiftr (nth (i / 8) A 0%N) (8 * N.of_nat (i mod 8))) 0xFF.

Definition keccak_256_N (msg : list N) : list N :=
  let p := pad msg in
  let A := absorb (List.length p / rate) (repeat 0%N 25) p in
  map (state_byte A) (seq 0 32).

Definition byte_of_N (n : N) : byte :=
  match Byte.of_N n with
  | Some b => b
  | None => x00
  end.

Definition keccak_256 (msg : list byte) : list byte :=
  map byte_of_N (keccak_256_N (map Byte.to_N msg)).

End Keccak.

(** ** The JavaScript string primitives the service uses

    A JavaScript string is modelled by [string]; the strings the service
    inspects (hex strings, addresses, event names) are ASCII. *)

Module JS.

Definition is_upper (c : ascii) : bool :=
  let n := nat_of_ascii c in (65 <=? n) && (n <=? 90).

Definition is_lower (c : ascii) : bool :=
  let n := nat_of_ascii c in (97 <=? n) && (n <=? 122).

Definition lower_char (c : ascii) : ascii :=
  if is_upper c then ascii_of_nat (nat_of_ascii c + 32) else c.

Definition upper_char (c : ascii) : ascii :=
  if is_lower c then ascii_of_nat (nat_of_ascii c - 32) else c.

Fixpoint toLowerCase (s : string) : string :=
  match s with
  | EmptyString => EmptyString
  | String c s' => String (lower_char c) (toLowerCase s')
  end.

(** [s.slice(n)] for [0 <= n]. *)
Fixpoint slice (n : nat) (s : string) : string :=
  match n, s with
  | O, _ => s
  | S n', String _ s' => slice n' s'
  | S _, EmptyString => EmptyString
  end.

Definition startsWith (s p : string) : bool := String.prefix p s.

(** [s.endsWith(suffix)]: the last [suffix.length] characters of [s] are
    [suffix]. *)
Definition endsWith (s suffix : string) : bool :=
  (String.length suffix <=? String.length s)
  && String.eqb (slice (String.length s - String.length suffix) s) suffix.

End JS.

(** ** Outcomes

    What a call of a TypeScript function can do: return a value, throw, or
    (for the unbounded loop of the salt search) still be running when the
    fuel given to the model is spent. *)

Inductive Outcome (A : Type) : Type :=
| Return (a : A)
| Throw (error : string)
| OutOfFuel.

Arguments Return {A} a.
Arguments Throw {A} error.
Arguments OutOfFuel {A}.

Definition bindO {A B : Type} (o : Outcome A) (k : A -> Outcome B) : Outcome B :=
  match o with
  | Return a => k a
  | Throw e => Throw e
  | OutOfFuel => OutOfFuel
  end.

Declare Scope outcome_scope.
Delimit Scope outcome_scope with outcome.
Notation "x <- c1 ;; c2" := (bindO c1 (fun x => c2))
  (at level 61, c1 at next level, right associativity) : outcome_scope.

(** ** The viem functions the service calls

    [Hex] and [Address] values are JavaScript strings at run time
    (["0x..."]), byte arrays are [list byte]. *)

Module Viem.

Import JS.
Local Open Scope string_scope.
Local Open Scope list_scope.
Local Open Scope nat_scope.
Local Open Scope outcome_scope.

Definition Hex := string.
Definition Address := string.

Definition nibble_char (n : N) : ascii :=
  nth (N.to_nat n) (list_ascii_of_string "0123456789abcdef") "0"%char.

Definition byte_hex (b : byte) : string :=
  let n := Byte.to_N b in
  String (nibble_char (n / 16)) (String (nibble_char (n mod 16)) EmptyString).

(** The hex digits of a byte array, without prefix: [Buffer.toString('hex')]. *)
Fixpoint hexes (bs : list byte) : string :=
  match bs with
  | [] => EmptyString
  | b :: bs' => (byte_hex b ++ hexes bs')%string
  end.

Definition bytesToHex (bs : list byte) : Hex := ("0x" ++ hexes bs)%string.

Definition charCodeToBase16 (c : ascii) : option N :=
  let n := N_of_ascii c in
  if ((48 <=? n) && (n <=? 57))%N then Some (n - 48)%N
  else if ((65 <=? n) && (n <=? 70))%N then Some (n - 55)%N
  else if ((97 <=? n) && (n <=? 102))%N then Some (n - 87)%N
  else None.

Fixpoint parse_pairs (s : string) : option (list byte) :=
  match s with
  | EmptyString => Some []
  | String _ EmptyString => None
  | String l (String r rest) =>
      match charCodeToBase16 l, charCodeToBase16 r, parse_pairs rest with
      | Some nl, Some nr, Some bs => Some (Keccak.byte_of_N (nl * 16 + nr) :: bs)
      | _, _, _ => None
      end
  end.

(** [hexToBytes]: drops the two-character prefix, left-pads an odd number of
    digits with ["0"]; [None] is the "invalid byte sequence" error. *)
Definition hexToBytes (hex : Hex) : option (list byte) :=
  let hexString := slice 2 hex in
  let hexString :=
    if Nat.odd (String.length hexString) then ("0" ++ hexString)%string
    else hexString in
  parse_pairs hexString.

Fixpoint all_hex_digits (s : string) : bool :=
  match s with
  | EmptyString => true
  | String c s' =>
      match charCodeToBase16 c with
      | Some _ => all_hex_digits s'
      | None => false
      end
  end.

(** [isHex(value)] with the default [strict: true]: [/^0x[0-9a-fA-F]*$/]. *)
Definition isHex (value : string) : bool :=
  startsWith value "0x" && all_hex_digits (slice 2 value).

(** UTF-8 encoding ([TextEncoder]) of a string of 8-bit characters. *)
Fixpoint stringToBytes (s : string) : list byte :=
  match s with
  | EmptyString => []
  | String c s' =>
      let n := N_of_ascii c in
      (if (n <? 128)%N then [byte_of_ascii c]
       else [Keccak.byte_of_N (192 + n / 64); Keccak.byte_of_N (128 + n mod 64)])
      ++ stringToBytes s'
  end.

Definition stringToHex (value : string) : Hex := bytesToHex (stringToBytes value).

(** [toHex(value)] dispatches on the run-time type of [value]; for a string,
    whatever its TypeScript type, it is [stringToHex]. *)
Definition toHex (value : string) : Hex := stringToHex value.

(** [toBytes(value)] for a string: [hexToBytes] when [isHex(value)], else
    [stringToBytes].  [hexToBytes] cannot fail under [isHex]
    (lemma [hexToBytes_isHex]). *)
Definition toBytes (value : string) : list byte :=
  if isHex value then
    match hexToBytes value with
    | Some bs => bs
    | None => []
    end
  else stringToBytes value.

(** [keccak256(value)] for a string: the hash of [toBytes(value)] when the
    string starts with ["0x"], of its UTF-8 bytes otherwise, which is what
    [toBytes] gives then; the result is rendered by [bytesToHex]. *)
Definition keccak256 (value : string) : Hex :=
  bytesToHex (Keccak.keccak_256 (toBytes value)).

(** [isAddress(address, {strict: false})]: [/^0x[a-fA-F0-9]{40}$/]. *)
Definition isAddress (address : string) : bool :=
  startsWith address "0x"
  && Nat.eqb (String.length (slice 2 address)) 40
  && all_hex_digits (slice 2 address).

Fixpoint checksum_chars (hash : list byte) (i : nat) (s : string) : string :=
  match s with
  | EmptyString => EmptyString
  | String c s' =>
      let b := Byte.to_N (nth (i / 2) hash x00) in
      let nibble := if Nat.even i then (b / 16)%N else (b mod 16)%N in
      String (if (i <? 40) && (8 <=? nibble)%N then upper_char c else c)
             (checksum_chars hash (S i) s')
  end.

(** EIP-55 [checksumAddress(address)] (no chain id). *)
Definition checksumAddress (address : string) : Address :=
  let hexAddress := toLowerCase (slice 2 address) in
  let hash := Keccak.keccak_256 (stringToBytes hexAddress) in
  ("0x" ++ checksum_chars hash 0 hexAddress)%string.

Definition getAddress (address : string) : Outcome Address :=
  if isAddress address then Return (checksumAddress address)
  else Throw "InvalidAddressError".

(** [pad(bytes, {size})], padding on the left. *)
Definition pad (bytes : list byte) (size : nat) : Outcome (list byte) :=
  if size <? List.length bytes then Throw "SizeExceedsPaddingSizeError"
  else Return (repeat x00 (size - List.length bytes) ++ bytes).

(** [size(value)] for a string: the number of bytes of a hex string,
    [Math.ceil((value.length - 2) / 2)]; the length of any other string. *)
Definition size (value : string) : nat :=
  if startsWith value "0x" then (String.length value - 2 + 1) / 2
  else String.length value.

(** [value.replace('0x', '')]. *)
Fixpoint strip_0x (s : string) : string :=
  match s with
  | EmptyString => EmptyString
  | String c s' => if String.prefix "0x" s then slice 2 s else String c (strip_0x s')
  end.

(** [slice(hex, start)]: the bytes of [hex] from offset [start] on. *)
Definition sliceHex (value : Hex) (start : nat) : Outcome Hex :=
  if (0 <? start) && (size value - 1 <? start)
  then Throw "SliceOffsetOutOfBoundsError"
  else Return ("0x" ++ slice (start * 2) (strip_0x value))%string.

(** [getContractAddress({from, salt, bytecode, opcode: 'CREATE2'})]:
    the last 20 bytes of [keccak256(0xff ++ from ++ salt ++ keccak256(bytecode))]. *)
Definition getContractAddress
  (from : Address) (salt : list byte) (bytecode : Hex) : Outcome Address :=
  from' <- getAddress from ;;
  let from_bytes := toBytes from' in
  salt' <- pad salt 32 ;;
  let bytecodeHash := Keccak.keccak_256 (toBytes bytecode) in
  let hash :=
    bytesToHex (Keccak.keccak_256 (toBytes "0xff" ++ from_bytes ++ salt' ++ bytecodeHash)) in
  low20 <- sliceHex hash 12 ;;
  getAddress low20.

End Viem.

(** ** [src/services/flap/flap.ts] *)

Module Flap.

Import JS Viem.
Local Open Scope string_scope.
Local Open Scope list_scope.
Local Open Scope nat_scope.
Local Open Scope outcome_scope.

(** Flap Portal contract address on BSC. *)
Definition FLAP_PORTAL_ADDRESS : Address := "0xe2cE6ab80874Fa9Fa2aAE65D277Dd6B8e65C9De0".

(** Token implementation address for non-tax tokens (suffix 8888). *)
Definition NON_TAX_TOKEN_IMPL : Address := "0x8B4329947e34B6d56D71A3385caC122BaDe7d78D".

(** *** The vanity salt search *)

(** The closure [predictVanityTokenAddress] of [findVanityTokenSalt]; it
    refers to the two module constants only. *)
Definition predictVanityTokenAddress (salt : Hex) : Outcome Address :=
  let bytecode :=
    ("0x3d602d80600a3d3981f3363d3d373d3d3d363d73"
     ++ toLowerCase (slice 2 NON_TAX_TOKEN_IMPL)
     ++ "5af43d82803e903d91602b57fd5bf3")%string in
  getContractAddress FLAP_PORTAL_ADDRESS (toBytes salt) bytecode.

(** The [while] loop of [findVanityTokenSalt], as a function of its two
    variables [salt] and [iterations] and of the local constant [suffix];
    [fuel] bounds the number of times the loop condition is evaluated. *)
Fixpoint vanity_loop (suffix : string) (fuel : nat) (salt : Hex) (iterations : nat)
  : Outcome (Hex * nat) :=
  match fuel with
  | O => OutOfFuel
  | S fuel' =>
      address <- predictVanityTokenAddress salt ;;
      if negb (endsWith (toLowerCase address) suffix)
      then vanity_loop suffix fuel' (keccak256 salt) (S iterations)
      else Return (salt, iterations)
  end.

Record VanitySalt : Type := { salt : Hex; address : Address }.

(** The seed: ["0x"] followed by the hex digits of [crypto.randomBytes(32)]. *)
Definition seed_of (randomBytes : list byte) : Hex := ("0x" ++ hexes randomBytes)%string.

(** The value [salt] is initialised with: [keccak256(toHex(seed))]. *)
Definition initial_salt (randomBytes : list byte) : Hex :=
  let seed := seed_of randomBytes in
  keccak256 (toHex seed).

(** The body of [findVanityTokenSalt] below the binding of [suffix].
    [randomBytes] is what [crypto.randomBytes(32)] returned; next to the
    result stands the value of [iterations] that the function logs. *)
Definition vanity_search (suffix : string) (randomBytes : list byte) (fuel : nat)
  : Outcome (VanitySalt * nat) :=
  let salt := initial_salt randomBytes in
  let iterations := 0 in
  r <- vanity_loop suffix fuel salt iterations ;;
  let '(salt, iterations) := r in
  address <- predictVanityTokenAddress salt ;;
  Return ({| salt := salt; address := address |}, iterations).

Definition findVanityTokenSalt (randomBytes : list byte) (fuel : nat)
  : Outcome VanitySalt :=
  let suffix := "8888" in
  r <- vanity_search suffix randomBytes fuel ;;
  Return (fst r).

(** *** [FlapService]

    The service talks to the outside world through the metadata uploader,
    the random generator and three RPC calls.  A run is modelled in a state
    and error monad whose state is the list of [Call]s made so far, oldest
    first; what the world answers is given by a [World], each answer a
    function of the calls made up to and including the one answered.
    Console output is not modelled. *)

Module Params.
Record NewTokenV5Params : Type := {
  name : string;
  symbol : string;
  meta : string;
  dexThresh : N;
  salt : Hex;
  taxRate : N;
  migratorType : N;
  quoteToken : Address;
  quoteAmt : N;
  beneficiary : Address;
  permitData : Hex;
  extensionID : Hex;
  extensionData : Hex;
  dexId : N;
  lpFeeProfile : N;
  taxDuration : N;
  antiFarmerDuration : N;
  mktBps : N;
  deflationBps : N;
  dividendBps : N;
  lpBps : N;
  minimumShareBalance : N
}.
End Params.

Inductive Abi : Type := FLAP_ABI | ERC20_ABI.

Inductive Arg : Type :=
| ArgAddress (a : Address)
| ArgUint (n : N)
| ArgParams (p : Params.NewTokenV5Params).

Inductive Call : Type :=
| UploadFlapMetadata (imageUrl name symbol description : string)
                     (twitter telegram website : option string)
| RandomBytes (n : nat)
| WriteContract (address : Address) (abi : Abi) (functionName : string)
                (args : list Arg) (value : option N)
| WaitForTransactionReceipt (hash : Hex)
| ReadContract (address : Address) (abi : Abi) (functionName : string)
               (args : list Arg).

Record Log : Type := { topics : list Hex; data : Hex }.
Record Receipt : Type := { logs : list Log }.

(** What [decodeEventLog] returns, as far as [createToken] reads it:
    [args] is absent for an event without inputs, [token] is [undefined]
    ([None]) when the event has no input of that name. *)
Record EventArgs : Type := { token : option Address }.
Record DecodedEvent : Type := { eventName : string; args : option EventArgs }.

Record World : Type := {
  uploadFlapMetadata : list Call -> Outcome (option string);
  randomBytes : list Call -> list byte;
  writeContract : list Call -> Outcome Hex;
  waitForTransactionReceipt : list Call -> Outcome Receipt;
  readContract : list Call -> Outcome N
}.

Definition Service (A : Type) : Type := list Call -> list Call * Outcome A.

Definition ret {A : Type} (a : A) : Service A := fun t => (t, Return a).

Definition throw {A : Type} (error : string) : Service A := fun t => (t, Throw error).

Definition bind {A B : Type} (m : Service A) (k : A -> Service B) : Service B :=
  fun t =>
    match m t with
    | (t', Return a) => k a t'
    | (t', Throw e) => (t', Throw e)
    | (t', OutOfFuel) => (t', OutOfFuel)
    end.

Definition lift {A : Type} (o : Outcome A) : Service A := fun t => (t, o).

(** Make [c], the world answering by [answer]. *)
Definition call {A : Type} (c : Call) (answer : list Call -> Outcome A) : Service A :=
  fun t => (t ++ [c], answer (t ++ [c])).

Declare Scope service_scope.
Delimit Scope service_scope with service.
Notation "x <- c1 ;; c2" := (bind c1 (fun x => c2))
  (at level 61, c1 at next level, right associativity) : service_scope.
Notation "c1 ;;; c2" := (bind c1 (fun _ => c2))
  (at level 61, right associativity) : service_scope.

Record CreatedToken : Type := { tokenAddress : option Address; txHash : Hex }.

Definition ZERO_ADDRESS : Address := "0x0000000000000000000000000000000000000000".

Section FlapService.

(** The outside world, the two pure viem functions whose results depend
    on data outside the file ([parseEther] on its argument's syntax,
    [decodeEventLog] on [flap-abi.json]; [None] is a throw), and the
    address of the account of the configured private key. *)
Variable world : World.
Variable parseEther : string -> Outcome N.
Variable decodeEventLog : Log -> option DecodedEvent.
Variable account_address : Address.

Local Open Scope service_scope.

(** [if (log.topics[0])]. *)
Definition has_topic0 (log : Log) : bool :=
  match topics log with
  | t :: _ => negb (t =? EmptyString)%string
  | [] => false
  end.

(** The [for] loop over [receipt.logs]: the value of [tokenAddress] after
    the loop, from its value before. *)
Fixpoint scan_logs (logs : list Log) (tokenAddress : option Address)
  : option Address :=
  match logs with
  | [] => tokenAddress
  | log :: rest =>
      if has_topic0 log then
        match decodeEventLog log with
        | Some decoded =>
            if (eventName decoded =? "TokenCreated")%string then
              match args decoded with
              | Some a => token a
              | None => scan_logs rest tokenAddress
              end
            else scan_logs rest tokenAddress
        | None => scan_logs rest tokenAddress
        end
      else scan_logs rest tokenAddress
  end.

(** The end of [createToken], from the receipt on. *)
Definition token_of_receipt (receipt : Receipt) (hash : Hex)
  : Outcome CreatedToken :=
  let tokenAddress := scan_logs (logs receipt) (Some ZERO_ADDRESS) in
  match tokenAddress with
  | Some a =>
      if (a =? ZERO_ADDRESS)%string
      then Throw "Token address not found in transaction logs"
      else Return {| tokenAddress := tokenAddress; txHash := hash |}
  | None => Return {| tokenAddress := tokenAddress; txHash := hash |}
  end.

(** [x || y] on an optional string. *)
Definition or_else (x : option string) (y : string) : string :=
  match x with
  | Some s => if (s =? EmptyString)%string then y else s
  | None => y
  end.

Definition createToken
  (name symbol imageUrl : string) (tweetUrl description : option string)
  (initialBuyAmount : option string) (fuel : nat) : Service CreatedToken :=
  let initialBuyAmount :=
    match initialBuyAmount with Some a => a | None => "0.0001" end in
  quoteAmount <- lift (parseEther initialBuyAmount) ;;
  metadataCid <-
    call (UploadFlapMetadata imageUrl name symbol
            (or_else description (name ++ " - Inspired by trending topics")%string)
            tweetUrl None None)
         (uploadFlapMetadata world) ;;
  match metadataCid with
  | None => throw "Failed to upload metadata to IPFS"
  | Some metadataCid =>
      if (metadataCid =? EmptyString)%string
      then throw "Failed to upload metadata to IPFS"
      else
        rnd <- call (RandomBytes 32) (fun t => Return (randomBytes world t)) ;;
        vanity <- lift (findVanityTokenSalt rnd fuel) ;;
        let params := {|
          Params.name := name;
          Params.symbol := symbol;
          Params.meta := metadataCid;
          Params.dexThresh := 1;
          Params.salt := salt vanity;
          Params.taxRate := 0;
          Params.migratorType := 0;
          Params.quoteToken := "0x0000000000000000000000000000000000000000";
          Params.quoteAmt := quoteAmount;
          Params.beneficiary := account_address;
          Params.permitData := "0x";
          Params.extensionID :=
            "0x0000000000000000000000000000000000000000000000000000000000000000";
          Params.extensionData := "0x";
          Params.dexId := 0;
          Params.lpFeeProfile := 0;
          Params.taxDuration := 0;
          Params.antiFarmerDuration := 0;
          Params.mktBps := 0;
          Params.deflationBps := 0;
          Params.dividendBps := 0;
          Params.lpBps := 0;
          Params.minimumShareBalance := 0
        |} in
        hash <- call (WriteContract FLAP_PORTAL_ADDRESS FLAP_ABI "newTokenV5"
                        [ArgParams params] (Some quoteAmount))
                     (writeContract world) ;;
        receipt <- call (WaitForTransactionReceipt hash)
                        (waitForTransactionReceipt world) ;;
        lift (token_of_receipt receipt hash)
  end.

Definition buyTokens (tokenAddress : Address) (bnbAmount : string) : Service Hex :=
  value <- lift (parseEther bnbAmount) ;;
  hash <- call (WriteContract FLAP_PORTAL_ADDRESS FLAP_ABI "buy"
                  [ArgAddress tokenAddress; ArgAddress account_address; ArgUint 0]
                  (Some value))
               (writeContract world) ;;
  call (WaitForTransactionReceipt hash) (waitForTransactionReceipt world) ;;;
  ret hash.

Definition sellTokens (tokenAddress : Address) (amount : N) : Service Hex :=
  approveHash <- call (WriteContract tokenAddress ERC20_ABI "approve"
                         [ArgAddress FLAP_PORTAL_ADDRESS; ArgUint amount] None)
                      (writeContract world) ;;
  call (WaitForTransactionReceipt approveHash) (waitForTransactionReceipt world) ;;;
  hash <- call (WriteContract FLAP_PORTAL_ADDRESS FLAP_ABI "sell"
                  [ArgAddress tokenAddress; ArgUint amount; ArgUint 0] None)
               (writeContract world) ;;
  call (WaitForTransactionReceipt hash) (waitForTransactionReceipt world) ;;;
  ret hash.

Definition getTokenBalance (tokenAddress : Address) : Service N :=
  balance <- call (ReadContract tokenAddress ERC20_ABI "balanceOf"
                     [ArgAddress account_address])
                  (readContract world) ;;
  ret balance.

Definition sellAllTokens (tokenAddress : Address) : Service unit :=
  balance <- getTokenBalance tokenAddress ;;
  if (balance =? 0)%N then ret tt
  else
    sellTokens tokenAddress balance ;;;
    ret tt.

End FlapService.

End Flap.

(** ** The search as the specification describes it

    The contract [findVanitySalt(deployer, implementationTemplate, suffix)]
    of the specification, steps 1 and 3 to 5 of its algorithm, written from
    its words and started from a given initial salt (the outcome of step 2);
    the search of the service is compared with it below. *)

Module Spec.

Import JS Viem.
Local Open Scope string_scope.
Local Open Scope outcome_scope.

(** Step 1: the implementation template spliced into the EIP-1167 template. *)
Definition minimal_proxy (implementationTemplate : Address) : Hex :=
  "0x3d602d80600a3d3981f3363d3d373d3d3d363d73"
  ++ toLowerCase (slice 2 implementationTemplate)
  ++ "5af43d82803e903d91602b57fd5bf3".

(** Step 3: [address = CREATE2(deployer, salt, bytecode)]. *)
Definition CREATE2 (deployer : Address) (salt : Hex) (bytecode : Hex)
  : Outcome Address :=
  getContractAddress deployer (toBytes salt) bytecode.

(** Steps 3 to 5. *)
Fixpoint findVanitySalt
  (deployer implementationTemplate : Address) (suffix : string)
  (salt : Hex) (fuel : nat) : Outcome Flap.VanitySalt :=
  match fuel with
  | O => OutOfFuel
  | S fuel' =>
      address <- CREATE2 deployer salt (minimal_proxy implementationTemplate) ;;
      if endsWith (toLowerCase address) suffix
      then Return {| Flap.salt := salt; Flap.address := address |}
      else findVanitySalt deployer implementationTemplate suffix
             (keccak256 salt) fuel'
  end.

(** Step 2 read on the raw seed: the hash of the 32 random bytes. *)
Definition hash_of_seed (seed : list byte) : Hex :=
  bytesToHex (Keccak.keccak_256 seed).

(** The CREATE2 address formula of section 3, on bytes: the low 20 bytes of
    [keccak256(0xff ++ deployer ++ salt ++ keccak256(bytecode))]. *)
Definition create2_formula (deployer salt bytecode : list byte) : list byte :=
  skipn 12 (Keccak.keccak_256
              ([xff] ++ deployer ++ salt ++ Keccak.keccak_256 bytecode)).

End Spec.

(** ** Notions used in the statements *)

Module Chain.

Import JS Viem Flap.
Local Open Scope string_scope.
Local Open Scope list_scope.

(** The hash chain [salt_0, keccak256(salt_0), keccak256(keccak256(salt_0)), ...]. *)
Fixpoint chain (salt0 : Hex) (n : nat) : Hex :=
  match n with
  | O => salt0
  | S n' => keccak256 (chain salt0 n')
  end.

(** The loop condition is false at [salt]: the predicted address ends with
    [suffix]. *)
Definition accepts (suffix : string) (salt : Hex) : bool :=
  match predictVanityTokenAddress salt with
  | Return address => endsWith (toLowerCase address) suffix
  | _ => false
  end.

(** The characters of [s] are ASCII (code below 128). *)
Fixpoint all_ascii (s : string) : bool :=
  match s with
  | EmptyString => true
  | String c s' => (N_of_ascii c <? 128)%N && all_ascii s'
  end.

(** A salt as the search holds it: the hex string of 32 bytes. *)
Definition wf_salt (salt : Hex) : Prop :=
  exists bytes, List.length bytes = 32 /\ salt = bytesToHex bytes.

(** The bytes of the deployer (the portal) and of the proxy bytecode. *)
Definition portal_bytes : list byte := toBytes FLAP_PORTAL_ADDRESS.
Definition proxy_bytes : list byte :=
  toBytes ("0x3d602d80600a3d3981f3363d3d373d3d3d363d73"
           ++ toLowerCase (slice 2 NON_TAX_TOKEN_IMPL)
           ++ "5af43d82803e903d91602b57fd5bf3").

(** [log] decodes to a TokenCreated event. *)
Definition decodes_to_TokenCreated
  (decodeEventLog : Log -> option DecodedEvent) (log : Log) : Prop :=
  exists decoded,
    decodeEventLog log = Some decoded /\ eventName decoded = "TokenCreated".

(** The calls [sellAllTokens] can make for [tokenAddress]. *)
Definition balance_read (account_address tokenAddress : Address) : Call :=
  ReadContract tokenAddress ERC20_ABI "balanceOf" [ArgAddress account_address].

Definition approve_call (tokenAddress : Address) (amount : N) : Call :=
  WriteContract tokenAddress ERC20_ABI "approve"
    [ArgAddress FLAP_PORTAL_ADDRESS; ArgUint amount] None.

Definition sell_call (tokenAddress : Address) (amount : N) : Call :=
  WriteContract FLAP_PORTAL_ADDRESS FLAP_ABI "sell"
    [ArgAddress tokenAddress; ArgUint amount; ArgUint 0] None.

Definition is_transaction (c : Call) : bool :=
  match c with
  | WriteContract _ _ _ _ _ => true
  | _ => false
  end.

(** *** A concrete run, used for the checks on concrete inputs

    The bytes of [crypto.randomBytes(32)], and what [findVanityTokenSalt]
    returns on them: two rejections, then an address that ends in 8888. *)
Definition sample_random : list byte := repeat x00 30 ++ [x5f; x1f].

Definition sample_result : VanitySalt :=
  {| salt := "0xdf13acc4633ba631eb64e7477f8ae68e2003b0d78ef1de2aea41d3842e8ea9bf";
     address := "0x515C33fAEc3D30d79e5f8Cf738C8e6094BD38888" |}.

(** A world in which every call succeeds: the receipt has a Transfer-like
    log that does not decode and a log that decodes to TokenCreated; the
    wallet holds 5 tokens. *)
Definition sample_account : Address := "0x00000000000000000000000000000000000000A1".

Definition sample_log_other : Log := {| topics := ["0x01"]; data := "0x" |}.
Definition sample_log_created : Log := {| topics := ["0x02"]; data := "0x2a" |}.

Definition sample_decode (log : Log) : option DecodedEvent :=
  if (data log =? "0x2a")%string
  then Some {| eventName := "TokenCreated";
               args := Some {| token := Some (address sample_result) |} |}
  else None.

Definition sample_parseEther (amount : string) : Outcome N :=
  Return 100000000000000%N.

Definition sample_world (receipt_logs : list Log) (balance : N) : World :=
  {| uploadFlapMetadata := fun _ => Return (Some "QmSampleCid");
     randomBytes := fun _ => sample_random;
     writeContract := fun t => Return (bytesToHex [Keccak.byte_of_N (N.of_nat (List.length t))]);
     waitForTransactionReceipt := fun _ => Return {| logs := receipt_logs |};
     readContract := fun _ => Return balance |}.

Definition sample_created : CreatedToken :=
  {| tokenAddress := Some (address sample_result); txHash := "0x03" |}.

(** The calls of [createToken "Cat" "CAT" ...] in the sample world, up to
    the transaction. *)
Definition sample_create_calls : list Call :=
  [UploadFlapMetadata "https://example.org/cat.png" "Cat" "CAT"
     "Cat - Inspired by trending topics" None None None;
   RandomBytes 32;
   WriteContract FLAP_PORTAL_ADDRESS FLAP_ABI "newTokenV5"
     [ArgParams {|
        Params.name := "Cat"; Params.symbol := "CAT";
        Params.meta := "QmSampleCid"; Params.dexThresh := 1;
        Params.salt := salt sample_result; Params.taxRate := 0;
        Params.migratorType := 0;
        Params.quoteToken := "0x0000000000000000000000000000000000000000";
        Params.quoteAmt := 100000000000000;
        Params.beneficiary := sample_account; Params.permitData := "0x";
        Params.extensionID :=
          "0x0000000000000000000000000000000000000000000000000000000000000000";
        Params.extensionData := "0x"; Params.dexId := 0;
        Params.lpFeeProfile := 0; Params.taxDuration := 0;
        Params.antiFarmerDuration := 0; Params.mktBps := 0;
        Params.deflationBps := 0; Params.dividendBps := 0;
        Params.lpBps := 0; Params.minimumShareBalance := 0 |}]
     (Some 100000000000000%N)].

End Chain.

(** ** [src/config/env.ts]

    The environment the services are configured from.  [process.env], after
    [dotenv.config()], is a partial map from names to strings. *)

Module Env.

Import JS.
Local Open Scope string_scope.
Local Open Scope outcome_scope.

Definition ProcessEnv : Type := string -> option string.

(** Helper to ensure critical keys exist. *)
Definition getEnv (process_env : ProcessEnv) (key : string) (required : bool)
  : Outcome string :=
  let value := process_env key in
  let missing :=
    match value with
    | Some v => (v =? EmptyString)%string
    | None => true
    end in
  if missing && required
  then Throw ("CRITICAL ERROR: Missing ENV variable: " ++ key)
  else Return (Flap.or_else value EmptyString).

(** The object [ENV]; the field [BSC_RPC] is [ENV.BSC.RPC], and so on. *)
Record ENV : Type := {
  X_BEARER_TOKEN : string;
  AI_GROQ_KEY : string;
  BSC_RPC : string;
  BSC_PRIVATE_KEY : string;
  BSC_BSCSCAN_API_KEY : string;
  PINATA_JWT : string;
  SOLANA_RPC : string;
  SOLANA_PRIVATE_KEY : string
}.

(** The evaluation of the object literal, field by field in source order. *)
Definition load (process_env : ProcessEnv) : Outcome ENV :=
  bearer <- getEnv process_env "X_BEARER_TOKEN" true ;;
  groq <- getEnv process_env "GROQ_API_KEY" true ;;
  bsc_rpc <- getEnv process_env "BSC_RPC_URL" false ;;
  bsc_key <- getEnv process_env "BSC_PRIVATE_KEY_HEX" true ;;
  bscscan <- getEnv process_env "BSCSCAN_API_KEY" false ;;
  jwt <- getEnv process_env "PINATA_JWT" false ;;
  solana_rpc <- getEnv process_env "SOLANA_RPC_URL" false ;;
  solana_key <- getEnv process_env "SOLANA_PRIVATE_KEY_BASE58" false ;;
  Return {|
    X_BEARER_TOKEN := bearer;
    AI_GROQ_KEY := groq;
    BSC_RPC := Flap.or_else (Some bsc_rpc) "https://bsc-dataseed1.binance.org";
    BSC_PRIVATE_KEY := bsc_key;
    BSC_BSCSCAN_API_KEY := bscscan;
    PINATA_JWT := jwt;
    SOLANA_RPC := Flap.or_else (Some solana_rpc) "https://api.mainnet-beta.solana.com";
    SOLANA_PRIVATE_KEY := solana_key
  |}.

End Env.

(** ** [src/services/image.ts]: the upload of the Flap metadata

    [uploadFlapMetadata], which [createToken] calls, with
    [downloadMediaAndUploadToIPFS] and [extractVideoFrame].  A run is
    modelled like a run of [FlapService]: the state is the list of the
    input/output operations made so far, and an [Outside] gives the answers;
    an answer [OutOfFuel] is an operation that never completes. *)

Module Image.

Import JS.
Local Open Scope string_scope.
Local Open Scope list_scope.

(** What the code reads of the [Response] of [fetch]. *)
Record Response : Type := {
  ok : bool;
  statusText : string;
  arrayBuffer : Outcome (list byte)
}.

(** The metadata JSON that Flap expects. *)
Record FlapMetadata : Type := {
  name : string;
  symbol : string;
  description : string;
  image : string;
  twitter : option string;
  telegram : option string;
  website : option string;
  creator : option string
}.

Inductive Operation : Type :=
| Fetch (url : string)
| ReadFile (path : string)
| WriteFileSync (path : string) (data : list byte)
| Screenshots (input folder filename timestamp : string)
| ReadFileSync (path : string)
| Unlink (path : string)
| UploadFile (fileName type : string) (content : list byte)
| UploadJson (fileName : string) (metadata : FlapMetadata).

Record Outside : Type := {
  fetch : list Operation -> Outcome Response;
  readFile : list Operation -> Outcome (list byte);
  writeFileSync : list Operation -> Outcome unit;
  screenshots : list Operation -> Outcome unit;
  readFileSync : list Operation -> Outcome (list byte);
  unlink : list Operation -> Outcome unit;
  upload_file : list Operation -> Outcome string;
  upload_json : list Operation -> Outcome string
}.

Definition IO (A : Type) : Type := list Operation -> list Operation * Outcome A.

Definition ret {A : Type} (a : A) : IO A := fun t => (t, Return a).

Definition throw {A : Type} (error : string) : IO A := fun t => (t, Throw error).

Definition bind {A B : Type} (m : IO A) (k : A -> IO B) : IO B :=
  fun t =>
    match m t with
    | (t', Return a) => k a t'
    | (t', Throw e) => (t', Throw e)
    | (t', OutOfFuel) => (t', OutOfFuel)
    end.

Definition lift {A : Type} (o : Outcome A) : IO A := fun t => (t, o).

Definition perform {A : Type} (op : Operation) (answer : list Operation -> Outcome A)
  : IO A :=
  fun t => (t ++ [op], answer (t ++ [op])).

(** [try { m } catch (error) { handler(error) }]. *)
Definition try_catch {A : Type} (m : IO A) (handler : string -> IO A) : IO A :=
  fun t =>
    match m t with
    | (t', Throw e) => handler e t'
    | r => r
    end.

Declare Scope io_scope.
Delimit Scope io_scope with io.
Notation "x <- c1 ;; c2" := (bind c1 (fun x => c2))
  (at level 61, c1 at next level, right associativity) : io_scope.
Notation "c1 ;;; c2" := (bind c1 (fun _ => c2))
  (at level 61, right associativity) : io_scope.

(** [s.includes(sub)]. *)
Fixpoint includes (s sub : string) : bool :=
  String.prefix sub s
  || match s with
     | EmptyString => false
     | String _ rest => includes rest sub
     end.

Definition video_extensions : list string :=
  ["mp4"; "mov"; "avi"; "webm"; "mkv"; "flv"; "m3u8"].

(** At the head of [rest]: [ext] in any letter case, then ["?"] or the end. *)
Definition extension_here (rest ext : string) : bool :=
  (toLowerCase (substring 0 (String.length ext) rest) =? ext)%string
  && match slice (String.length ext) rest with
     | EmptyString => true
     | String c _ => Ascii.eqb c "?"
     end.

(** [/\.(mp4|mov|avi|webm|mkv|flv|m3u8)(\?|$)/i.test(s)]. *)
Fixpoint video_extension (s : string) : bool :=
  match s with
  | EmptyString => false
  | String c rest =>
      (Ascii.eqb c "." && existsb (extension_here rest) video_extensions)
      || video_extension rest
  end.

Fixpoint no_dot (s : string) : bool :=
  match s with
  | EmptyString => true
  | String c rest => negb (Ascii.eqb c ".") && no_dot rest
  end.

(** [fileName.replace(/\.[^.]+$/, '.jpg')]: the leftmost dot that is
    followed, up to the end, by one or more characters other than a dot. *)
Fixpoint replace_extension (fileName : string) : string :=
  match fileName with
  | EmptyString => EmptyString
  | String c rest =>
      if Ascii.eqb c "." && negb (rest =? EmptyString)%string && no_dot rest
      then ".jpg"
      else String c (replace_extension rest)
  end.

Section ImageService.

(** The outside, whether [this.pinata] is set, and [path.join] applied to
    [process.cwd()] and a file name. *)
Variable outside : Outside.
Variable pinata : bool.
Variable cwd : string.
Variable in_cwd : string -> string.

Local Open Scope io_scope.

(** [await unlink(path).catch(() => {})]. *)
Definition unlink_quietly (path : string) : IO unit :=
  try_catch (perform (Unlink path) (unlink outside)) (fun _ => ret tt).

Definition extractVideoFrame (videoUrl : string) : IO (option (list byte)) :=
  let tempVideoPath := in_cwd "temp_video.mp4" in
  let tempImagePath := in_cwd "temp_frame.jpg" in
  try_catch
    (response <- perform (Fetch videoUrl) (fetch outside) ;;
     (if negb (ok response)
      then throw ("Failed to download video: " ++ statusText response)%string
      else ret tt) ;;;
     videoBuffer <- lift (arrayBuffer response) ;;
     perform (WriteFileSync tempVideoPath videoBuffer) (writeFileSync outside) ;;;
     perform (Screenshots tempVideoPath cwd "temp_frame.jpg" "00:00:00.000")
             (screenshots outside) ;;;
     frameBuffer <- perform (ReadFileSync tempImagePath) (readFileSync outside) ;;
     unlink_quietly tempVideoPath ;;;
     unlink_quietly tempImagePath ;;;
     ret (Some frameBuffer))
    (fun _ =>
       unlink_quietly tempVideoPath ;;;
       unlink_quietly tempImagePath ;;;
       ret None).

Definition isLocalFile (mediaUrl : string) : bool :=
  negb (startsWith mediaUrl "http://") && negb (startsWith mediaUrl "https://").

Definition isVideo (mediaUrl : string) : bool :=
  video_extension mediaUrl
  || includes mediaUrl "/video/"
  || includes mediaUrl "video_".

(** The part of [downloadMediaAndUploadToIPFS] that gets the bytes to
    upload; [None] is the early [return null]. *)
Definition media_buffer (mediaUrl : string) : IO (option (list byte)) :=
  if isLocalFile mediaUrl then
    buffer <- perform (ReadFile mediaUrl) (readFile outside) ;;
    ret (Some buffer)
  else if isVideo mediaUrl then
    frameBuffer <- extractVideoFrame mediaUrl ;;
    ret frameBuffer
  else
    response <- perform (Fetch mediaUrl) (fetch outside) ;;
    (if negb (ok response)
     then throw ("Failed to download image: " ++ statusText response)%string
     else ret tt) ;;;
    buffer <- lift (arrayBuffer response) ;;
    ret (Some buffer).

Definition downloadMediaAndUploadToIPFS (mediaUrl fileName : string)
  : IO (option string) :=
  if negb pinata then ret None
  else
    try_catch
      (buffer <- media_buffer mediaUrl ;;
       match buffer with
       | None => ret None
       | Some buffer =>
           cid <- perform (UploadFile (replace_extension fileName) "image/jpeg" buffer)
                          (upload_file outside) ;;
           ret (Some cid)
       end)
      (fun _ => ret None).

(** [x || null] on an optional string. *)
Definition or_null (x : option string) : option string :=
  match x with
  | Some s => if (s =? EmptyString)%string then None else Some s
  | None => None
  end.

Definition uploadFlapMetadata
  (imageUrl name symbol description : string)
  (twitter telegram website : option string) : IO (option string) :=
  if negb pinata then ret None
  else
    try_catch
      (imageCid <- downloadMediaAndUploadToIPFS imageUrl (symbol ++ "_image.jpg")%string ;;
       match or_null imageCid with
       | None => ret None
       | Some imageCid =>
           let metadata := {|
             name := name;
             symbol := symbol;
             description := description;
             image := imageCid;
             twitter := or_null twitter;
             telegram := or_null telegram;
             website := or_null website;
             creator :=
               if pinata then Some "0x0000000000000000000000000000000000000000"
               else None
           |} in
           cid <- perform (UploadJson (symbol ++ "_metadata.json")%string metadata)
                          (upload_json outside) ;;
           ret (Some cid)
       end)
      (fun _ => ret None).

End ImageService.

(** [initPinata]: the client is created when [ENV.PINATA.JWT] is not empty. *)
Definition initPinata (env : Env.ENV) : bool :=
  negb (Env.PINATA_JWT env =? EmptyString)%string.

End Image.

(** ** Notions used in the statements about the services *)

Module Pipeline.

Import JS Viem Flap Chain.
Local Open Scope string_scope.
Local Open Scope list_scope.

(** [y] is the failure [x]: the same exception, or both still running. *)
Definition failed {A B : Type} (x : Outcome A) (y : Outcome B) : Prop :=
  match x, y with
  | Throw e, Throw e' => e = e'
  | OutOfFuel, OutOfFuel => True
  | _, _ => False
  end.

(** The transactions among some calls. *)
Definition transactions (calls : list Call) : list Call :=
  filter is_transaction calls.

(** The calls of [createToken]. *)
Definition buy_amount (initialBuyAmount : option string) : string :=
  match initialBuyAmount with
  | Some a => a
  | None => "0.0001"
  end.

Definition upload_call
  (imageUrl name symbol : string) (tweetUrl description : option string) : Call :=
  UploadFlapMetadata imageUrl name symbol
    (or_else description (name ++ " - Inspired by trending topics"))
    tweetUrl None None.

Definition newToken_params
  (name symbol metadataCid : string) (salt : Hex) (quoteAmount : N)
  (account_address : Address) : Params.NewTokenV5Params :=
  {| Params.name := name;
     Params.symbol := symbol;
     Params.meta := metadataCid;
     Params.dexThresh := 1;
     Params.salt := salt;
     Params.taxRate := 0;
     Params.migratorType := 0;
     Params.quoteToken := "0x0000000000000000000000000000000000000000";
     Params.quoteAmt := quoteAmount;
     Params.beneficiary := account_address;
     Params.permitData := "0x";
     Params.extensionID :=
       "0x0000000000000000000000000000000000000000000000000000000000000000";
     Params.extensionData := "0x";
     Params.dexId := 0;
     Params.lpFeeProfile := 0;
     Params.taxDuration := 0;
     Params.antiFarmerDuration := 0;
     Params.mktBps := 0;
     Params.deflationBps := 0;
     Params.dividendBps := 0;
     Params.lpBps := 0;
     Params.minimumShareBalance := 0 |}.

Definition newToken_call (params : Params.NewTokenV5Params) (value : N) : Call :=
  WriteContract FLAP_PORTAL_ADDRESS FLAP_ABI "newTokenV5" [ArgParams params] (Some value).

(** The transaction of [buyTokens]. *)
Definition buy_call (tokenAddress account_address : Address) (value : N) : Call :=
  WriteContract FLAP_PORTAL_ADDRESS FLAP_ABI "buy"
    [ArgAddress tokenAddress; ArgAddress account_address; ArgUint 0] (Some value).

(** The loop over the logs stops at [log]: it has a first topic and decodes
    to a TokenCreated event with arguments. *)
Definition creates (decodeEventLog : Log -> option DecodedEvent) (log : Log) : bool :=
  has_topic0 log
  && match decodeEventLog log with
     | Some decoded =>
         (eventName decoded =? "TokenCreated")
         && match args decoded with Some _ => true | None => false end
     | None => false
     end.

(** The [token] argument that [decodeEventLog] gives for [log]. *)
Definition token_of (decodeEventLog : Log -> option DecodedEvent) (log : Log)
  : option Address :=
  match decodeEventLog log with
  | Some decoded =>
      match args decoded with
      | Some a => token a
      | None => None
      end
  | None => None
  end.

(** The uploader of a world whose [imageService] is the [ImageService] of
    [image.ts]: it answers an upload call by a run of [uploadFlapMetadata]
    on the arguments of the call. *)
Definition image_uploader
  (outside : Image.Outside) (pinata : bool) (cwd : string) (in_cwd : string -> string)
  (t : list Call) : Outcome (option string) :=
  match last t (RandomBytes 0) with
  | UploadFlapMetadata imageUrl name symbol description twitter telegram website =>
      snd (Image.uploadFlapMetadata outside pinata cwd in_cwd
             imageUrl name symbol description twitter telegram website [])
  | _ => Return None
  end.

(** Kinds of operations of the image service. *)
Definition is_fetch (op : Image.Operation) : bool :=
  match op with
  | Image.Fetch _ => true
  | _ => false
  end.

Definition is_read_file (op : Image.Operation) : bool :=
  match op with
  | Image.ReadFile _ => true
  | _ => false
  end.

Definition is_upload (op : Image.Operation) : bool :=
  match op with
  | Image.UploadFile _ _ _ | Image.UploadJson _ _ => true
  | _ => false
  end.

(** The operations of [extractVideoFrame] on its temporary files. *)
Definition is_frame_op (op : Image.Operation) : bool :=
  match op with
  | Image.WriteFileSync _ _ | Image.Screenshots _ _ _ _
  | Image.ReadFileSync _ | Image.Unlink _ => true
  | _ => false
  end.

(** The operations by which [downloadMediaAndUploadToIPFS] gets the bytes
    of [mediaUrl]: one read of a local path; for a URL one download,
    followed for a video by operations on the temporary files. *)
Definition media_source (mediaUrl : string) (source : list Image.Operation) : Prop :=
  if Image.isLocalFile mediaUrl then source = [Image.ReadFile mediaUrl]
  else exists rest,
         source = Image.Fetch mediaUrl :: rest
         /\ forallb is_frame_op rest = true
         /\ (Image.isVideo mediaUrl = false -> rest = []).


(** *** Concrete runs of the image service *)

(** An outside in which every operation succeeds. *)
Definition sample_outside : Image.Outside :=
  {| Image.fetch := fun _ =>
       Return {| Image.ok := true; Image.statusText := "OK";
                 Image.arrayBuffer := Return [x01; x02] |};
     Image.readFile := fun _ => Return [x03];
     Image.writeFileSync := fun _ => Return tt;
     Image.screenshots := fun _ => Return tt;
     Image.readFileSync := fun _ => Return [x04];
     Image.unlink := fun _ => Return tt;
     Image.upload_file := fun _ => Return "QmImage";
     Image.upload_json := fun _ => Return "QmMetadata" |}.

(** An outside in which the download is refused and the temporary files
    cannot be removed. *)
Definition failing_outside : Image.Outside :=
  {| Image.fetch := fun _ =>
       Return {| Image.ok := false; Image.statusText := "Not Found";
                 Image.arrayBuffer := Throw "no body" |};
     Image.readFile := fun _ => Throw "ENOENT";
     Image.writeFileSync := fun _ => Throw "EACCES";
     Image.screenshots := fun _ => Throw "ffmpeg exited with code 1";
     Image.readFileSync := fun _ => Throw "ENOENT";
     Image.unlink := fun _ => Throw "ENOENT";
     Image.upload_file := fun _ => Throw "401";
     Image.upload_json := fun _ => Throw "401" |}.

Definition sample_in_cwd (fileName : string) : string := "/app/" ++ fileName.

(** A world like [sample_world], with the given uploader; the receipt has
    the log that decodes to TokenCreated. *)
Definition world_with_uploader
  (uploader : list Call -> Outcome (option string)) : World :=
  {| uploadFlapMetadata := uploader;
     randomBytes := fun _ => sample_random;
     writeContract := fun t => Return (bytesToHex [Keccak.byte_of_N (N.of_nat (List.length t))]);
     waitForTransactionReceipt := fun _ => Return {| logs := [sample_log_created] |};
     readContract := fun _ => Return 5%N |}.

(** [process.env[key]] is set and not empty. *)
Definition is_set (process_env : Env.ProcessEnv) (key : string) : bool :=
  match process_env key with
  | Some v => negb (v =? EmptyString)
  | None => false
  end.

(** An environment with the three required variables and no Pinata token. *)
Definition sample_process_env : Env.ProcessEnv :=
  fun key =>
    if key =? "X_BEARER_TOKEN" then Some "bearer"
    else if key =? "GROQ_API_KEY" then Some "groq"
    else if key =? "BSC_PRIVATE_KEY_HEX" then Some "0x01"
    else if key =? "BSC_RPC_URL" then Some EmptyString
    else None.

(** What loading gives for [sample_process_env]. *)
Definition sample_env : Env.ENV :=
  {| Env.X_BEARER_TOKEN := "bearer";
     Env.AI_GROQ_KEY := "groq";
     Env.BSC_RPC := "https://bsc-dataseed1.binance.org";
     Env.BSC_PRIVATE_KEY := "0x01";
     Env.BSC_BSCSCAN_API_KEY := EmptyString;
     Env.PINATA_JWT := EmptyString;
     Env.SOLANA_RPC := "https://api.mainnet-beta.solana.com";
     Env.SOLANA_PRIVATE_KEY := EmptyString |}.

(** The sample world with the image service behind it. *)
Definition image_world (outside : Image.Outside) (pinata : bool) : World :=
  world_with_uploader (image_uploader outside pinata "/app" sample_in_cwd).

(** A world in which the node refuses every transaction. *)
Definition refusing_world : World :=
  {| uploadFlapMetadata := fun _ => Return (Some "QmSampleCid");
     randomBytes := fun _ => sample_random;
     writeContract := fun _ => Throw "insufficient funds for gas";
     waitForTransactionReceipt := fun _ => Return {| logs := [] |};
     readContract := fun _ => Return 5%N |}.

(** A [parseEther] that accepts no amount. *)
Definition refusing_parseEther (amount : string) : Outcome N :=
  Throw "Invalid decimal number".

(** The operations of [extractVideoFrame] between the download and the
    removal of the temporary files, in the order of the source. *)
Definition frame_steps (video frame cwd : string) (videoBuffer : list byte)
  : list Image.Operation :=
  [Image.WriteFileSync video videoBuffer;
   Image.Screenshots video cwd "temp_frame.jpg" "00:00:00.000";
   Image.ReadFileSync frame].

End Pipeline.

(** * Properties *)

(** ** Known answers

    The hash on the empty input and on "abc", the address of the first
    example of EIP-1014, and the checksum of the portal address. *)

Module KnownAnswers.

Import Viem Flap.
Local Open Scope string_scope.

Example keccak256_empty :
  keccak256 "0x" = "0xc5d2460186f7233c927e7db2dcc703c0e500b653ca82273b7bfad8045d85a470".
Proof. vm_compute. reflexivity. Qed.

Example keccak256_abc :
  keccak256 (toHex "abc")
  = "0x4e03657aea45a94fc7d47ba826c8d667c0d1e6e33a64a036ec44f58fa12d6c45".
Proof. vm_compute. reflexivity. Qed.

Example create2_eip1014 :
  getContractAddress "0x0000000000000000000000000000000000000000"
    (repeat x00 32) "0x00"
  = Return "0x4D1A2e2bB4F88F0250f26Ffff098B0b30B26BF38".
Proof. vm_compute. reflexivity. Qed.

Example checksum_portal :
  checksumAddress (JS.toLowerCase FLAP_PORTAL_ADDRESS) = FLAP_PORTAL_ADDRESS.
Proof. vm_compute. reflexivity. Qed.

Example toBytes_not_hex : toBytes "0xg1" = stringToBytes "0xg1".
Proof. reflexivity. Qed.

End KnownAnswers.

(** ** Hex strings and byte arrays *)

Module HexFacts.

Import JS Viem Flap Chain.
Local Open Scope string_scope.

Arguments Keccak.keccak_256 : simpl never.

Lemma nibble_hi_parse (b : byte) :
  charCodeToBase16 (nibble_char (Byte.to_N b / 16)) = Some (Byte.to_N b / 16)%N.
Proof. destruct b; reflexivity. Qed.

Lemma nibble_lo_parse (b : byte) :
  charCodeToBase16 (nibble_char (Byte.to_N b mod 16)) = Some (Byte.to_N b mod 16)%N.
Proof. destruct b; reflexivity. Qed.

Lemma byte_of_nibbles (b : byte) :
  Keccak.byte_of_N (Byte.to_N b / 16 * 16 + Byte.to_N b mod 16) = b.
Proof. destruct b; reflexivity. Qed.

Lemma parse_pairs_byte_hex (b : byte) (rest : string) :
  parse_pairs (byte_hex b ++ rest) =
  match parse_pairs rest with
  | Some bs => Some (b :: bs)
  | None => None
  end.
Proof.
  unfold byte_hex. cbn [append parse_pairs].
  rewrite nibble_hi_parse, nibble_lo_parse, byte_of_nibbles.
  reflexivity.
Qed.

(** Parsing the digits written for a byte array gives the array back. *)
Lemma parse_pairs_hexes (bs : list byte) : parse_pairs (hexes bs) = Some bs.
Proof.
  induction bs as [|b bs IH]; [reflexivity|].
  cbn [hexes]. rewrite parse_pairs_byte_hex, IH. reflexivity.
Qed.

Lemma length_append (s t : string) :
  String.length (s ++ t) = String.length s + String.length t.
Proof. induction s as [|c s IH]; cbn; [reflexivity | now rewrite IH]. Qed.

Lemma length_hexes (bs : list byte) :
  String.length (hexes bs) = 2 * List.length bs.
Proof.
  induction bs as [|b bs IH]; [reflexivity|].
  cbn [hexes List.length]. rewrite length_append, IH. cbn. lia.
Qed.

Lemma all_hex_digits_hexes (bs : list byte) : all_hex_digits (hexes bs) = true.
Proof.
  induction bs as [|b bs IH]; [reflexivity|].
  cbn [hexes]. unfold byte_hex. cbn [append all_hex_digits].
  now rewrite nibble_hi_parse, nibble_lo_parse.
Qed.

Lemma hexToBytes_bytesToHex (bs : list byte) :
  hexToBytes (bytesToHex bs) = Some bs.
Proof.
  unfold hexToBytes, bytesToHex. cbn [append slice].
  rewrite length_hexes, Nat.odd_mul. cbn [Nat.odd andb].
  apply parse_pairs_hexes.
Qed.

Lemma isHex_bytesToHex (bs : list byte) : isHex (bytesToHex bs) = true.
Proof.
  unfold isHex, bytesToHex, startsWith. cbn [append slice prefix].
  replace (prefix EmptyString (hexes bs)) with true by (now destruct (hexes bs)).
  apply all_hex_digits_hexes.
Qed.

Lemma parse_pairs_hex_digits (n : nat) :
  forall s, String.length s <= n -> all_hex_digits s = true ->
            Nat.even (String.length s) = true -> parse_pairs s <> None.
Proof.
  induction n as [|n IH]; intros s Hlen Hhex Heven.
  - destruct s; [discriminate | cbn in Hlen; lia].
  - destruct s as [|l [|r rest]]; [discriminate | discriminate Heven |].
    cbn [all_hex_digits] in Hhex. cbn [parse_pairs].
    destruct (charCodeToBase16 l); [|discriminate].
    destruct (charCodeToBase16 r); [|discriminate].
    cbn [String.length] in Hlen, Heven.
    assert (Hrest : parse_pairs rest <> None).
    { apply IH; [lia | exact Hhex |].
      now rewrite Nat.even_succ_succ in Heven. }
    destruct (parse_pairs rest); [discriminate | contradiction].
Qed.

(** [hexToBytes] does not fail on a string that [isHex] accepts. *)
Lemma hexToBytes_isHex (value : string) :
  isHex value = true -> hexToBytes value <> None.
Proof.
  unfold isHex, hexToBytes. intros H. apply andb_prop in H as [_ Hhex].
  destruct (Nat.odd (String.length (slice 2 value))) eqn:Hodd.
  - apply (parse_pairs_hex_digits (S (String.length (slice 2 value)))).
    + cbn. lia.
    + exact Hhex.
    + cbn [append String.length]. now rewrite Nat.even_succ.
  - apply (parse_pairs_hex_digits (String.length (slice 2 value)));
      [lia | exact Hhex |].
    rewrite <- Nat.negb_odd, Hodd. reflexivity.
Qed.

(** [toBytes] undoes [bytesToHex]. *)
Lemma toBytes_bytesToHex (bs : list byte) : toBytes (bytesToHex bs) = bs.
Proof.
  unfold toBytes. now rewrite isHex_bytesToHex, hexToBytes_bytesToHex.
Qed.

Lemma hex_digit_upper_char (c : ascii) :
  match charCodeToBase16 (upper_char c) with Some _ => true | None => false end =
  match charCodeToBase16 c with Some _ => true | None => false end.
Proof. destruct c as [[] [] [] [] [] [] [] []]; reflexivity. Qed.

Lemma hex_digit_lower_char (c : ascii) :
  match charCodeToBase16 (lower_char c) with Some _ => true | None => false end =
  match charCodeToBase16 c with Some _ => true | None => false end.
Proof. destruct c as [[] [] [] [] [] [] [] []]; reflexivity. Qed.

Lemma slice_2_0x (s : string) : slice 2 (String "0" (String "x" s)) = s.
Proof. reflexivity. Qed.

Lemma length_toLowerCase (s : string) :
  String.length (toLowerCase s) = String.length s.
Proof. induction s as [|c s IH]; cbn; [reflexivity | now rewrite IH]. Qed.

Lemma all_hex_digits_toLowerCase (s : string) :
  all_hex_digits (toLowerCase s) = all_hex_digits s.
Proof.
  induction s as [|c s IH]; [reflexivity|]. cbn [toLowerCase all_hex_digits].
  pose proof (hex_digit_lower_char c) as Hc.
  destruct (charCodeToBase16 (lower_char c)), (charCodeToBase16 c);
    try discriminate; [exact IH | reflexivity].
Qed.

Lemma length_checksum_chars (hash : list byte) (s : string) (i : nat) :
  String.length (checksum_chars hash i s) = String.length s.
Proof.
  revert i. induction s as [|c s IH]; intros i; cbn; [reflexivity | now rewrite IH].
Qed.

Lemma all_hex_digits_checksum_chars (hash : list byte) (s : string) (i : nat) :
  all_hex_digits (checksum_chars hash i s) = all_hex_digits s.
Proof.
  revert i. induction s as [|c s IH]; intros i; [reflexivity|].
  cbn [checksum_chars all_hex_digits].
  pose proof (hex_digit_upper_char c) as Hc.
  destruct (_ && _);
    [destruct (charCodeToBase16 (upper_char c)) | ];
    destruct (charCodeToBase16 c); try discriminate; auto.
Qed.

(** A checksummed address is an address: ["0x"] and 40 hex digits. *)
Lemma isAddress_checksumAddress (address : string) :
  isAddress address = true -> isAddress (checksumAddress address) = true.
Proof.
  unfold isAddress, checksumAddress, startsWith.
  intros H. apply andb_prop in H as [H Hhex]. apply andb_prop in H as [_ Hlen].
  cbn [append]. rewrite !slice_2_0x.
  rewrite length_checksum_chars, length_toLowerCase, Hlen.
  rewrite all_hex_digits_checksum_chars, all_hex_digits_toLowerCase, Hhex.
  cbn. now destruct (checksum_chars _ _ _).
Qed.

Lemma getAddress_isAddress (address : string) (a : Address) :
  getAddress address = Return a -> isAddress a = true.
Proof.
  unfold getAddress. destruct (isAddress address) eqn:H; [|discriminate].
  intros [= <-]. now apply isAddress_checksumAddress.
Qed.

Lemma getContractAddress_isAddress
  (from : Address) (salt : list byte) (bytecode : Hex) (a : Address) :
  getContractAddress from salt bytecode = Return a -> isAddress a = true.
Proof.
  unfold getContractAddress.
  destruct (getAddress from); cbn [bindO]; try discriminate.
  destruct (pad salt 32); cbn [bindO]; try discriminate.
  destruct (sliceHex _ 12); cbn [bindO]; try discriminate.
  apply getAddress_isAddress.
Qed.

Lemma byte_hex_ascii (b : byte) : all_ascii (byte_hex b) = true.
Proof. destruct b; reflexivity. Qed.

Lemma all_ascii_append (s t : string) :
  all_ascii (s ++ t) = all_ascii s && all_ascii t.
Proof.
  induction s as [|c s IH]; [reflexivity|]. cbn [append all_ascii].
  now rewrite IH, andb_assoc.
Qed.

Lemma all_ascii_hexes (bs : list byte) : all_ascii (hexes bs) = true.
Proof.
  induction bs as [|b bs IH]; [reflexivity|].
  cbn [hexes]. now rewrite all_ascii_append, byte_hex_ascii, IH.
Qed.

(** The UTF-8 encoding of an ASCII string has one byte per character. *)
Lemma stringToBytes_ascii (s : string) :
  all_ascii s = true ->
  stringToBytes s = map byte_of_ascii (list_ascii_of_string s).
Proof.
  induction s as [|c s IH]; [reflexivity|]. cbn [all_ascii].
  intros H. apply andb_prop in H as [Hc Hs].
  cbn [stringToBytes list_ascii_of_string map]. rewrite Hc, (IH Hs). reflexivity.
Qed.


Lemma length_keccak_256 (msg : list byte) :
  List.length (Keccak.keccak_256 msg) = 32.
Proof.
  unfold Keccak.keccak_256, Keccak.keccak_256_N.
  now rewrite !length_map, length_seq.
Qed.

(** On the hex string of a byte array, [keccak256] hashes the array. *)
Lemma keccak256_bytesToHex (bs : list byte) :
  keccak256 (bytesToHex bs) = bytesToHex (Keccak.keccak_256 bs).
Proof. unfold keccak256. now rewrite toBytes_bytesToHex. Qed.

Lemma pad_exact (bs : list byte) (n : nat) :
  List.length bs = n -> pad bs n = Return bs.
Proof.
  intros <-. unfold pad. now rewrite Nat.ltb_irrefl, Nat.sub_diag.
Qed.

Lemma strip_0x_bytesToHex (bs : list byte) : strip_0x (bytesToHex bs) = hexes bs.
Proof.
  unfold bytesToHex. cbn [append strip_0x].
  replace (prefix "0x" (String "0" (String "x" (hexes bs)))) with true;
    [reflexivity|].
  cbn. now destruct (hexes bs).
Qed.

Lemma slice_hexes (n : nat) (bs : list byte) :
  slice (n * 2) (hexes bs) = hexes (skipn n bs).
Proof.
  revert bs. induction n as [|n IH]; intros bs; [reflexivity|].
  destruct bs as [|b bs]; [reflexivity|].
  cbn [Nat.mul Nat.add skipn hexes]. unfold byte_hex. cbn [append slice].
  apply IH.
Qed.

Lemma size_bytesToHex (bs : list byte) : size (bytesToHex bs) = List.length bs.
Proof.
  unfold size, bytesToHex, startsWith. cbn [append String.length].
  replace (prefix "0x" (String "0" (String "x" (hexes bs)))) with true
    by (cbn; now destruct (hexes bs)).
  rewrite length_hexes.
  replace (S (S (2 * List.length bs)) - 2 + 1) with (1 + List.length bs * 2) by lia.
  rewrite Nat.div_add by discriminate. reflexivity.
Qed.

Lemma sliceHex_bytesToHex (bs : list byte) (start : nat) :
  start < List.length bs ->
  sliceHex (bytesToHex bs) start = Return (bytesToHex (skipn start bs)).
Proof.
  intros Hlt. unfold sliceHex. rewrite size_bytesToHex.
  replace (Nat.ltb (List.length bs - 1) start) with false
    by (symmetry; apply Nat.ltb_ge; lia).
  rewrite andb_false_r, strip_0x_bytesToHex, slice_hexes. reflexivity.
Qed.

Lemma isAddress_bytesToHex (bs : list byte) :
  List.length bs = 20 -> isAddress (bytesToHex bs) = true.
Proof.
  intros Hlen. unfold isAddress, bytesToHex, startsWith. cbn [append slice].
  replace (prefix "0x" (String "0" (String "x" (hexes bs)))) with true
    by (cbn; now destruct (hexes bs)).
  rewrite length_hexes, Hlen, all_hex_digits_hexes. reflexivity.
Qed.

Lemma getAddress_bytesToHex (bs : list byte) :
  List.length bs = 20 ->
  getAddress (bytesToHex bs) = Return (checksumAddress (bytesToHex bs)).
Proof. intros Hlen. unfold getAddress. now rewrite isAddress_bytesToHex. Qed.

(** *** The bytes of a hex string do not depend on the letter case *)

Lemma base16_upper_char (c : ascii) :
  charCodeToBase16 (upper_char c) = charCodeToBase16 c.
Proof. destruct c as [[] [] [] [] [] [] [] []]; reflexivity. Qed.

Lemma base16_lower_char (c : ascii) :
  charCodeToBase16 (lower_char c) = charCodeToBase16 c.
Proof. destruct c as [[] [] [] [] [] [] [] []]; reflexivity. Qed.

Lemma parse_pairs_toLowerCase (n : nat) :
  forall s, String.length s <= n -> parse_pairs (toLowerCase s) = parse_pairs s.
Proof.
  induction n as [|n IH]; intros s Hlen.
  - destruct s; [reflexivity | cbn in Hlen; lia].
  - destruct s as [|l [|r rest]]; [reflexivity | reflexivity |].
    cbn [toLowerCase parse_pairs].
    rewrite !base16_lower_char, IH by (cbn in Hlen; lia). reflexivity.
Qed.

Lemma parse_pairs_checksum_chars (hash : list byte) (n : nat) :
  forall s i, String.length s <= n ->
              parse_pairs (checksum_chars hash i s) = parse_pairs s.
Proof.
  induction n as [|n IH]; intros s i Hlen.
  - destruct s; [reflexivity | cbn in Hlen; lia].
  - destruct s as [|l [|r rest]]; [reflexivity | reflexivity |].
    cbn [checksum_chars parse_pairs].
    rewrite IH by (cbn in Hlen; lia).
    do 2 (destruct (_ && _)%bool; rewrite ?base16_upper_char); reflexivity.
Qed.

Lemma isAddress_isHex (address : string) :
  isAddress address = true -> isHex address = true.
Proof.
  unfold isAddress, isHex. intros H.
  apply andb_prop in H as [H Hhex]. apply andb_prop in H as [H0x _].
  now rewrite H0x, Hhex.
Qed.

Lemma hexToBytes_address (address : string) :
  isAddress address = true -> hexToBytes address = parse_pairs (slice 2 address).
Proof.
  unfold isAddress, hexToBytes. intros H.
  apply andb_prop in H as [H _]. apply andb_prop in H as [_ Hlen].
  apply Nat.eqb_eq in Hlen. now rewrite Hlen.
Qed.

(** [getAddress] changes capitals only: the bytes stay. *)
Lemma toBytes_checksumAddress (address : string) :
  isAddress address = true -> toBytes (checksumAddress address) = toBytes address.
Proof.
  intros Haddr. pose proof (isAddress_checksumAddress _ Haddr) as Hsum.
  unfold toBytes.
  rewrite (isAddress_isHex _ Hsum), (isAddress_isHex _ Haddr).
  rewrite (hexToBytes_address _ Hsum), (hexToBytes_address _ Haddr).
  unfold checksumAddress. cbn [append]. rewrite slice_2_0x.
  now rewrite (parse_pairs_checksum_chars _ _ _ _ (Nat.le_refl _)),
              (parse_pairs_toLowerCase _ _ (Nat.le_refl _)).
Qed.

(** [getContractAddress] on a deployer address and a salt of at most 32
    bytes: the CREATE2 formula on the bytes of the three inputs. *)
Lemma getContractAddress_formula (from : Address) (salt : list byte) (bytecode : Hex) :
  isAddress from = true -> List.length salt <= 32 ->
  getContractAddress from salt bytecode
  = Return (checksumAddress
              (bytesToHex
                 (Spec.create2_formula (toBytes from)
                    (repeat x00 (32 - List.length salt) ++ salt)%list
                    (toBytes bytecode)))).
Proof.
  intros Haddr Hlen. unfold getContractAddress, getAddress at 1.
  rewrite Haddr. cbn [bindO]. rewrite (toBytes_checksumAddress _ Haddr).
  unfold pad. replace (Nat.ltb 32 (List.length salt)) with false
    by (symmetry; apply Nat.ltb_ge; exact Hlen).
  cbn [bindO].
  rewrite sliceHex_bytesToHex by (rewrite length_keccak_256; lia).
  cbn [bindO].
  rewrite getAddress_bytesToHex
    by (rewrite length_skipn, length_keccak_256; reflexivity).
  reflexivity.
Qed.

End HexFacts.

(** ** The salt search *)

Module SearchFacts.

Import JS Viem Flap Chain HexFacts.
Local Open Scope string_scope.

Lemma getAddress_portal :
  getAddress FLAP_PORTAL_ADDRESS = Return FLAP_PORTAL_ADDRESS.
Proof. vm_compute. reflexivity. Qed.

(** The prediction on a 32-byte salt is the CREATE2 formula on bytes,
    rendered as a checksummed address; it does not throw. *)
Lemma predict_formula (bytes : list byte) :
  List.length bytes = 32 ->
  predictVanityTokenAddress (bytesToHex bytes) =
  Return (checksumAddress
            (bytesToHex (Spec.create2_formula portal_bytes bytes proxy_bytes))).
Proof.
  intros Hlen.
  unfold predictVanityTokenAddress, getContractAddress.
  rewrite getAddress_portal. cbn [bindO].
  rewrite toBytes_bytesToHex, (pad_exact bytes 32 Hlen). cbn [bindO].
  rewrite sliceHex_bytesToHex by (rewrite length_keccak_256; lia).
  cbn [bindO].
  rewrite getAddress_bytesToHex
    by (rewrite length_skipn, length_keccak_256; reflexivity).
  reflexivity.
Qed.

Lemma wf_salt_keccak256 (value : string) : wf_salt (keccak256 value).
Proof.
  exists (Keccak.keccak_256 (toBytes value)).
  split; [apply length_keccak_256 | reflexivity].
Qed.

Lemma wf_salt_initial (randomBytes : list byte) : wf_salt (initial_salt randomBytes).
Proof. apply wf_salt_keccak256. Qed.

Lemma chain_shift (salt0 : Hex) (n : nat) :
  chain (keccak256 salt0) n = chain salt0 (S n).
Proof. induction n as [|n IH]; [reflexivity|]. cbn [chain] in *. now rewrite IH. Qed.

Lemma wf_salt_chain (salt0 : Hex) (n : nat) :
  wf_salt salt0 -> wf_salt (chain salt0 n).
Proof. destruct n; [trivial|]. intros _. apply wf_salt_keccak256. Qed.

Lemma predict_total (salt : Hex) :
  wf_salt salt -> exists address, predictVanityTokenAddress salt = Return address.
Proof.
  intros (bytes & Hlen & ->). eexists. now apply predict_formula.
Qed.

(** What the loop returns: the first accepted salt of the chain. *)
Lemma vanity_loop_sound (suffix : string) :
  forall fuel salt0 it0 salt n,
    vanity_loop suffix fuel salt0 it0 = Return (salt, n) ->
    exists k,
      k < fuel /\ n = it0 + k /\ salt = chain salt0 k
      /\ accepts suffix salt = true
      /\ (forall j, j < k -> accepts suffix (chain salt0 j) = false).
Proof.
  induction fuel as [|fuel IH]; intros salt0 it0 salt n Hrun; [discriminate|].
  cbn [vanity_loop] in *. unfold accepts.
  destruct (predictVanityTokenAddress salt0) as [a| |] eqn:Hp;
    cbn [bindO] in Hrun; try discriminate.
  destruct (endsWith (toLowerCase a) suffix) eqn:He; cbn [negb] in *.
  - injection Hrun as <- <-. exists 0.
    rewrite Hp, He. cbn [chain].
    repeat split; try lia; try reflexivity.
  - apply IH in Hrun as (k & Hk & -> & -> & Hacc & Hmin).
    exists (S k). rewrite chain_shift in *.
    repeat split; try lia; trivial.
    intros [|j] Hj.
    + cbn [chain]. unfold accepts. now rewrite Hp, He.
    + rewrite <- chain_shift. apply Hmin. lia.
Qed.

(** The loop does not throw on the salts it holds. *)
Lemma vanity_loop_no_throw (suffix : string) :
  forall fuel salt0 it0 e,
    wf_salt salt0 -> vanity_loop suffix fuel salt0 it0 <> Throw e.
Proof.
  induction fuel as [|fuel IH]; intros salt0 it0 e Hwf; [discriminate|].
  cbn [vanity_loop].
  destruct (predict_total salt0 Hwf) as [a ->]. cbn [bindO].
  destruct (negb _); [|discriminate].
  apply IH, wf_salt_keccak256.
Qed.

(** The loop returns as soon as the fuel reaches an accepted salt of the
    chain. *)
Lemma vanity_loop_complete (suffix : string) :
  forall k fuel salt0 it0,
    wf_salt salt0 -> k < fuel -> accepts suffix (chain salt0 k) = true ->
    exists k', k' <= k
      /\ vanity_loop suffix fuel salt0 it0 = Return (chain salt0 k', it0 + k').
Proof.
  induction k as [|k IH]; intros fuel salt0 it0 Hwf Hfuel Hacc.
  - destruct fuel as [|fuel]; [lia|]. exists 0. split; [lia|].
    cbn [vanity_loop chain] in *. unfold accepts in Hacc.
    destruct (predictVanityTokenAddress salt0); try discriminate.
    cbn [bindO]. rewrite Hacc, Nat.add_0_r. reflexivity.
  - destruct fuel as [|fuel]; [lia|].
    cbn [vanity_loop].
    destruct (predict_total salt0 Hwf) as [a Hp]. rewrite Hp. cbn [bindO].
    destruct (endsWith (toLowerCase a) suffix) eqn:He; cbn [negb].
    + exists 0. split; [lia|]. now rewrite Nat.add_0_r.
    + rewrite <- chain_shift in Hacc.
      destruct (IH fuel (keccak256 salt0) (S it0)) as (k' & Hk' & Hrun);
        [apply wf_salt_keccak256 | lia | exact Hacc |].
      exists (S k'). split; [lia|].
      rewrite Hrun, chain_shift. do 2 f_equal. lia.
Qed.

(** The loop after [j] rejections: it holds the salt number [j] of the
    chain, and [iterations] has grown by [j]. *)
Lemma vanity_loop_rejections (suffix : string) :
  forall j fuel salt0 it0,
    wf_salt salt0 -> j <= fuel ->
    (forall i, i < j -> accepts suffix (chain salt0 i) = false) ->
    vanity_loop suffix fuel salt0 it0
    = vanity_loop suffix (fuel - j) (chain salt0 j) (it0 + j).
Proof.
  induction j as [|j IH]; intros fuel salt0 it0 Hwf Hfuel Hrej.
  - now rewrite Nat.sub_0_r, Nat.add_0_r.
  - destruct fuel as [|fuel]; [lia|].
    cbn [vanity_loop Nat.sub].
    destruct (predict_total salt0 Hwf) as [a Hp]. rewrite Hp. cbn [bindO].
    pose proof (Hrej 0 (Nat.lt_0_succ j)) as H0.
    cbn [chain] in H0. unfold accepts in H0. rewrite Hp in H0. rewrite H0.
    cbn [negb].
    rewrite (IH fuel (keccak256 salt0) (S it0)).
    + rewrite chain_shift. f_equal. lia.
    + apply wf_salt_keccak256.
    + lia.
    + intros i Hi. rewrite chain_shift. apply Hrej. lia.
Qed.

(** What the body of the search returns, for any value of [suffix]. *)
Lemma vanity_search_sound (suffix : string) (randomBytes : list byte) (fuel : nat)
  (r : VanitySalt) (n : nat) :
  vanity_search suffix randomBytes fuel = Return (r, n) ->
  vanity_loop suffix fuel (initial_salt randomBytes) 0 = Return (salt r, n)
  /\ predictVanityTokenAddress (salt r) = Return (address r)
  /\ endsWith (toLowerCase (address r)) suffix = true.
Proof.
  unfold vanity_search. intros Hrun.
  destruct (vanity_loop suffix fuel (initial_salt randomBytes) 0)
    as [[s m]| |] eqn:Hloop; cbn [bindO] in Hrun; try discriminate.
  destruct (predictVanityTokenAddress s) as [a| |] eqn:Hp;
    cbn [bindO] in Hrun; try discriminate.
  injection Hrun as <- <-. cbn [salt address].
  apply vanity_loop_sound in Hloop as (k & _ & _ & _ & Hacc & _).
  unfold accepts in Hacc. rewrite Hp in Hacc. auto.
Qed.

(** The search returns, given enough fuel, exactly when the hash chain of
    the initial salt reaches a salt whose predicted address ends in 8888;
    nothing else bounds the loop. *)
Lemma search_returns_iff_chain_reaches_accepted_salt (randomBytes : list byte) :
  (exists fuel r, findVanityTokenSalt randomBytes fuel = Return r)
  <-> (exists k, accepts "8888" (chain (initial_salt randomBytes) k) = true).
Proof.
  split.
  - intros (fuel & r & Hrun). unfold findVanityTokenSalt in Hrun.
    destruct (vanity_search "8888" randomBytes fuel) as [[r' n]| |] eqn:Hs;
      cbn [bindO] in Hrun; try discriminate.
    apply vanity_search_sound in Hs as (Hloop & _).
    apply vanity_loop_sound in Hloop as (k & _ & _ & Hsalt & Hacc & _).
    exists k. now rewrite <- Hsalt.
  - intros (k & Hacc).
    destruct (vanity_loop_complete "8888" k (S k) (initial_salt randomBytes) 0
                (wf_salt_initial randomBytes) (Nat.lt_succ_diag_r k) Hacc)
      as (k' & _ & Hloop).
    destruct (predict_total (chain (initial_salt randomBytes) k'))
      as [a Hp]; [apply wf_salt_chain, wf_salt_initial|].
    exists (S k), {| salt := chain (initial_salt randomBytes) k'; address := a |}.
    unfold findVanityTokenSalt, vanity_search.
    rewrite Hloop. cbn [bindO]. rewrite Hp. reflexivity.
Qed.

(** It never throws. *)
Lemma findVanityTokenSalt_no_throw (randomBytes : list byte) (fuel : nat) (e : string) :
  findVanityTokenSalt randomBytes fuel <> Throw e.
Proof.
  unfold findVanityTokenSalt, vanity_search.
  destruct (vanity_loop "8888" fuel (initial_salt randomBytes) 0)
    as [[s n]| |] eqn:Hloop; cbn [bindO]; try discriminate.
  - apply vanity_loop_sound in Hloop as (k & _ & _ & -> & _).
    destruct (predict_total (chain (initial_salt randomBytes) k))
      as [a ->]; [apply wf_salt_chain, wf_salt_initial|].
    discriminate.
  - now apply vanity_loop_no_throw in Hloop; [|apply wf_salt_initial].
Qed.

End SearchFacts.

(** ** Statements about the salt search *)

Module VanitySearch.

Import JS Viem Flap Chain HexFacts SearchFacts.
Local Open Scope string_scope.

Example sample_run : vanity_search "8888" sample_random 3 = Return (sample_result, 2).
Proof. vm_compute. reflexivity. Qed.

Example sample_run_short : findVanityTokenSalt sample_random 2 = OutOfFuel.
Proof. vm_compute. reflexivity. Qed.

(** C1: whenever the search returns a pair, the returned address is the
    CREATE2 prediction for the returned salt (the checksummed low 20 bytes
    of keccak256(0xff ++ portal ++ salt ++ keccak256(proxy bytecode))) and
    its lower-case form ends with the suffix searched for; for the suffix
    of the service, 8888, the pair is what [findVanityTokenSalt] returns. *)
Theorem search_returns_predicted_address_with_suffix
  (suffix : string) (randomBytes : list byte) (fuel : nat)
  (r : VanitySalt) (n : nat) :
  vanity_search suffix randomBytes fuel = Return (r, n) ->
  predictVanityTokenAddress (salt r) = Return (address r)
  /\ endsWith (toLowerCase (address r)) suffix = true
  /\ (exists bytes,
        List.length bytes = 32 /\ salt r = bytesToHex bytes
        /\ address r =
           checksumAddress
             (bytesToHex (Spec.create2_formula portal_bytes bytes proxy_bytes)))
  /\ (suffix = "8888" -> findVanityTokenSalt randomBytes fuel = Return r).
Proof.
  intros Hrun.
  destruct (vanity_search_sound _ _ _ _ _ Hrun) as (Hloop & Hp & Hends).
  repeat split; trivial.
  - apply vanity_loop_sound in Hloop as (k & _ & _ & Hsalt & _).
    destruct (wf_salt_chain (initial_salt randomBytes) k
                (wf_salt_initial randomBytes)) as (bytes & Hlen & Hbytes).
    exists bytes. repeat split; trivial; [congruence|].
    rewrite Hsalt, Hbytes, (predict_formula bytes Hlen) in Hp.
    now injection Hp.
  - intros ->. unfold findVanityTokenSalt. now rewrite Hrun.
Qed.

Lemma search_returns_predicted_address_with_suffix_witness :
  vanity_search "8888" sample_random 3 = Return (sample_result, 2)
  /\ predictVanityTokenAddress (salt sample_result) = Return (address sample_result)
  /\ endsWith (toLowerCase (address sample_result)) "8888" = true.
Proof.
  split; [vm_compute; reflexivity|].
  destruct (search_returns_predicted_address_with_suffix
              "8888" sample_random 3 sample_result 2) as (Hp & He & _).
  - vm_compute. reflexivity.
  - split; assumption.
Defined.

(** C6: on every rejection the loop goes on with the keccak256 of the salt
    it holds: after [j] rejections its variables are the salt number [j] of
    the hash chain of the initial salt and [iterations = j], so the salts it
    examines are the chain in order.  A search that returns has examined and
    rejected the salts before the returned one, which is the first of the
    chain whose predicted address ends with the suffix; and whenever the
    fuel reaches that first accepted salt, the search returns it, for the
    suffix of the service as the result of [findVanityTokenSalt]. *)
Theorem search_returns_first_accepted_salt_of_chain
  (suffix : string) (randomBytes : list byte) :
  let salt0 := initial_salt randomBytes in
  (forall j, chain salt0 (S j) = keccak256 (chain salt0 j))
  /\ (forall fuel j,
        j <= fuel ->
        (forall i, i < j -> accepts suffix (chain salt0 i) = false) ->
        vanity_loop suffix fuel salt0 0
        = vanity_loop suffix (fuel - j) (chain salt0 j) j)
  /\ (forall fuel r n,
        vanity_search suffix randomBytes fuel = Return (r, n) ->
        n < fuel
        /\ salt r = chain salt0 n
        /\ accepts suffix (salt r) = true
        /\ (forall j, j < n ->
              exists a, predictVanityTokenAddress (chain salt0 j) = Return a
                        /\ endsWith (toLowerCase a) suffix = false))
  /\ (forall fuel n,
        n < fuel ->
        accepts suffix (chain salt0 n) = true ->
        (forall j, j < n -> accepts suffix (chain salt0 j) = false) ->
        exists a,
          predictVanityTokenAddress (chain salt0 n) = Return a
          /\ vanity_search suffix randomBytes fuel
             = Return ({| salt := chain salt0 n; address := a |}, n)
          /\ (suffix = "8888" ->
              findVanityTokenSalt randomBytes fuel
              = Return {| salt := chain salt0 n; address := a |})).
Proof.
  intros salt0. split; [reflexivity|]. split; [|split].
  - intros fuel j Hj Hrej.
    apply (vanity_loop_rejections suffix j fuel salt0 0);
      [apply wf_salt_initial | exact Hj | exact Hrej].
  - intros fuel r n Hrun.
    destruct (vanity_search_sound _ _ _ _ _ Hrun) as (Hloop & _ & _).
    apply vanity_loop_sound in Hloop as (k & Hk & Hn & Hsalt & Hacc & Hmin).
    cbn [Nat.add] in Hn. subst k.
    repeat split; trivial.
    intros j Hj. specialize (Hmin j Hj). unfold accepts in Hmin.
    destruct (predict_total (chain salt0 j)) as [a Hp];
      [apply wf_salt_chain, wf_salt_initial|].
    fold salt0 in Hmin. rewrite Hp in Hmin. eauto.
  - intros fuel n Hn Hacc Hrej.
    destruct (predict_total (chain salt0 n)) as [a Hp];
      [apply wf_salt_chain, wf_salt_initial|].
    exists a. split; [exact Hp|].
    assert (Hrun : vanity_search suffix randomBytes fuel
                   = Return ({| salt := chain salt0 n; address := a |}, n)).
    { unfold vanity_search. fold salt0.
      rewrite (vanity_loop_rejections suffix n fuel salt0 0
                 (wf_salt_initial randomBytes) (Nat.lt_le_incl _ _ Hn) Hrej).
      destruct (fuel - n) as [|fuel'] eqn:Hfuel; [lia|].
      cbn [vanity_loop Nat.add]. rewrite Hp. cbn [bindO].
      unfold accepts in Hacc. rewrite Hp in Hacc. rewrite Hacc.
      cbn [negb bindO]. rewrite Hp. reflexivity. }
    split; [exact Hrun|]. intros ->.
    unfold findVanityTokenSalt. rewrite Hrun. reflexivity.
Qed.

Lemma search_returns_first_accepted_salt_of_chain_witness :
  vanity_loop "8888" 3 (initial_salt sample_random) 0
  = vanity_loop "8888" 1 (chain (initial_salt sample_random) 2) 2
  /\ salt sample_result = chain (initial_salt sample_random) 2
  /\ findVanityTokenSalt sample_random 3 = Return sample_result.
Proof.
  destruct (search_returns_first_accepted_salt_of_chain "8888" sample_random)
    as (_ & Hstate & Hsound & Hcomplete).
  assert (Hrej : forall i, i < 2 ->
                   accepts "8888" (chain (initial_salt sample_random) i) = false).
  { intros [|[|i]] Hi; [vm_compute; reflexivity..|lia]. }
  split; [apply (Hstate 3 2); [lia | exact Hrej]|].
  destruct (Hsound 3 sample_result 2) as (_ & Hsalt & _);
    [vm_compute; reflexivity|].
  split; [exact Hsalt|].
  destruct (Hcomplete 3 2) as (a & Hp & _ & Hservice);
    [lia | vm_compute; reflexivity | exact Hrej |].
  rewrite (Hservice eq_refl).
  assert (Hp' : predictVanityTokenAddress (chain (initial_salt sample_random) 2)
                = Return (address sample_result)) by (vm_compute; reflexivity).
  rewrite Hp in Hp'. injection Hp' as ->. rewrite <- Hsalt. reflexivity.
Defined.




(** C2, as stated, fails: the initial salt of the service is not the hash
    of the 32 random bytes themselves. *)
Lemma initial_salt_is_not_hash_of_raw_seed :
  List.length sample_random = 32
  /\ initial_salt sample_random <> Spec.hash_of_seed sample_random.
Proof.
  split; [reflexivity|]. intros H. vm_compute in H. discriminate H.
Qed.

(** C2 (amended): the seed is the string "0x" followed by the 64 hex digits
    of the random bytes, and the initial salt is the keccak256 hash of the
    ASCII bytes of that string, one byte per character (66 bytes for a
    32-byte seed); the loop starts from it. *)
Theorem initial_salt_hashes_text_of_seed (randomBytes : list byte) :
  let seed := ("0x" ++ hexes randomBytes)%string in
  initial_salt randomBytes = bytesToHex (Keccak.keccak_256 (stringToBytes seed))
  /\ stringToBytes seed = map byte_of_ascii (list_ascii_of_string seed)
  /\ List.length (stringToBytes seed) = 2 + 2 * List.length randomBytes
  /\ (forall suffix fuel r n,
        vanity_search suffix randomBytes fuel = Return (r, n) ->
        vanity_loop suffix fuel (initial_salt randomBytes) 0 = Return (salt r, n)).
Proof.
  intros seed.
  assert (Hascii : stringToBytes seed = map byte_of_ascii (list_ascii_of_string seed)).
  { apply stringToBytes_ascii. unfold seed. cbn [append all_ascii].
    rewrite all_ascii_hexes. reflexivity. }
  repeat split.
  - unfold initial_salt, toHex, stringToHex. apply keccak256_bytesToHex.
  - exact Hascii.
  - rewrite Hascii, length_map. unfold seed. cbn [append list_ascii_of_string List.length].
    rewrite <- (length_hexes randomBytes). f_equal. f_equal.
    generalize (hexes randomBytes). intros s.
    induction s as [|c s IH]; cbn; [reflexivity | now rewrite IH].
  - intros suffix fuel r n Hrun. now apply vanity_search_sound in Hrun.
Qed.

Lemma initial_salt_hashes_text_of_seed_witness :
  initial_salt sample_random
  = "0x36ac8fe351df11e0fad8040875fc71fa9f062722e0b0e3b9aac336bb95539ba0"
  /\ List.length (stringToBytes ("0x" ++ hexes sample_random)) = 66
  /\ vanity_loop "8888" 3 (initial_salt sample_random) 0
     = Return (salt sample_result, 2).
Proof.
  destruct (initial_salt_hashes_text_of_seed sample_random)
    as (Hsalt & _ & Hlen & Hloop).
  split; [rewrite Hsalt; vm_compute; reflexivity|].
  split; [exact Hlen|].
  apply Hloop. vm_compute. reflexivity.
Defined.

(** C3: the CREATE2 prediction is a function of the bytes of its three
    inputs and of nothing else.  Two computations whose deployers, salts and
    bytecodes denote the same bytes (identical inputs, or the same address
    and the same hex strings written with other capitals) have the same
    outcome; for a salt of at most 32 bytes this outcome is an address, the
    same in both, "0x" followed by 40 hex digits: the checksummed low 20
    bytes of keccak256(0xff ++ deployer ++ salt padded to 32 bytes ++
    keccak256(bytecode)).  So it is for the prediction of the service, which
    is the computation at the portal address and the proxy bytecode. *)
Theorem create2_prediction_is_deterministic
  (from from' : Address) (salt salt' : Hex) (bytecode bytecode' : Hex) :
  isAddress from = true -> isAddress from' = true ->
  toBytes from = toBytes from' ->
  toBytes salt = toBytes salt' ->
  toBytes bytecode = toBytes bytecode' ->
  getContractAddress from (toBytes salt) bytecode
  = getContractAddress from' (toBytes salt') bytecode'
  /\ predictVanityTokenAddress salt = predictVanityTokenAddress salt'
  /\ predictVanityTokenAddress salt
     = getContractAddress FLAP_PORTAL_ADDRESS (toBytes salt)
         (Spec.minimal_proxy NON_TAX_TOKEN_IMPL)
  /\ (List.length (toBytes salt) <= 32 ->
      exists a,
        getContractAddress from (toBytes salt) bytecode = Return a
        /\ getContractAddress from' (toBytes salt') bytecode' = Return a
        /\ a = checksumAddress
                 (bytesToHex
                    (Spec.create2_formula (toBytes from)
                       (repeat x00 (32 - List.length (toBytes salt)) ++ toBytes salt)%list
                       (toBytes bytecode)))
        /\ isAddress a = true /\ String.length a = 42)
  /\ (forall a, getContractAddress from (toBytes salt) bytecode = Return a ->
                isAddress a = true /\ String.length a = 42).
Proof.
  intros Hfrom Hfrom' Hf Hs Hb.
  assert (Hlen42 : forall a, isAddress a = true -> String.length a = 42).
  { intros a H. unfold isAddress, startsWith in H.
    apply andb_prop in H as [H _]. apply andb_prop in H as [_ Hlen].
    apply Nat.eqb_eq in Hlen.
    destruct a as [|c0 [|c1 a]]; cbn [slice String.length] in *;
      try discriminate.
    now rewrite Hlen. }
  assert (Heq : getContractAddress from (toBytes salt) bytecode
                = getContractAddress from' (toBytes salt') bytecode').
  { unfold getContractAddress, getAddress at 1 3.
    rewrite Hfrom, Hfrom'. cbn [bindO].
    now rewrite (toBytes_checksumAddress _ Hfrom), (toBytes_checksumAddress _ Hfrom'),
                Hf, Hs, Hb. }
  split; [exact Heq|].
  split; [unfold predictVanityTokenAddress; now rewrite Hs|].
  split; [reflexivity|]. split.
  - intros Hlen. eexists. rewrite <- Heq.
    rewrite (getContractAddress_formula from _ bytecode Hfrom Hlen).
    split; [reflexivity|]. split; [reflexivity|]. split; [reflexivity|].
    assert (Ha : isAddress
                   (checksumAddress
                      (bytesToHex
                         (Spec.create2_formula (toBytes from)
                            (repeat x00 (32 - List.length (toBytes salt)) ++ toBytes salt)%list
                            (toBytes bytecode)))) = true).
    { apply isAddress_checksumAddress, isAddress_bytesToHex.
      unfold Spec.create2_formula.
      rewrite length_skipn, length_keccak_256. reflexivity. }
    split; [exact Ha | now apply Hlen42].
  - intros a Ha. apply getContractAddress_isAddress in Ha.
    split; [exact Ha | now apply Hlen42].
Qed.

Lemma create2_prediction_is_deterministic_witness :
  getContractAddress "0xe2ce6ab80874fa9fa2aae65d277dd6b8e65c9de0"
    (toBytes "0xDF13ACC4633BA631EB64E7477F8AE68E2003B0D78EF1DE2AEA41D3842E8EA9BF")
    (Spec.minimal_proxy NON_TAX_TOKEN_IMPL)
  = Return (address sample_result)
  /\ predictVanityTokenAddress (salt sample_result)
     = predictVanityTokenAddress
         "0xDF13ACC4633BA631EB64E7477F8AE68E2003B0D78EF1DE2AEA41D3842E8EA9BF"
  /\ String.length (address sample_result) = 42.
Proof.
  destruct (create2_prediction_is_deterministic
              FLAP_PORTAL_ADDRESS "0xe2ce6ab80874fa9fa2aae65d277dd6b8e65c9de0"
              (salt sample_result)
              "0xDF13ACC4633BA631EB64E7477F8AE68E2003B0D78EF1DE2AEA41D3842E8EA9BF"
              (Spec.minimal_proxy NON_TAX_TOKEN_IMPL)
              (Spec.minimal_proxy NON_TAX_TOKEN_IMPL)
              eq_refl eq_refl eq_refl eq_refl eq_refl)
    as (Hsame & Hdet & _ & _ & Haddr).
  split; [rewrite <- Hsame; vm_compute; reflexivity|].
  split; [exact Hdet|].
  apply (Haddr (address sample_result)). vm_compute. reflexivity.
Defined.

(** C5: the bytecode whose hash enters the prediction is the EIP-1167
    template around the implementation address: the 20 bytes
    3d602d80600a3d3981f3363d3d373d3d3d363d73, the 20 bytes of
    NON_TAX_TOKEN_IMPL written in lower case without "0x", and the 15 bytes
    5af43d82803e903d91602b57fd5bf3. *)
Theorem prediction_hashes_minimal_proxy_bytecode (bytes : list byte) :
  List.length bytes = 32 ->
  let bytecode :=
    ("0x3d602d80600a3d3981f3363d3d373d3d3d363d73"
     ++ "8b4329947e34b6d56d71a3385cac122bade7d78d"
     ++ "5af43d82803e903d91602b57fd5bf3")%string in
  predictVanityTokenAddress (bytesToHex bytes)
  = getContractAddress FLAP_PORTAL_ADDRESS bytes bytecode
  /\ toLowerCase (slice 2 NON_TAX_TOKEN_IMPL) = "8b4329947e34b6d56d71a3385cac122bade7d78d"
  /\ toBytes bytecode
     = (toBytes "0x3d602d80600a3d3981f3363d3d373d3d3d363d73"
        ++ toBytes NON_TAX_TOKEN_IMPL
        ++ toBytes "0x5af43d82803e903d91602b57fd5bf3")%list
  /\ List.length (toBytes NON_TAX_TOKEN_IMPL) = 20
  /\ predictVanityTokenAddress (bytesToHex bytes)
     = Return (checksumAddress (bytesToHex
         (skipn 12 (Keccak.keccak_256
            ([xff] ++ toBytes FLAP_PORTAL_ADDRESS ++ bytes
             ++ Keccak.keccak_256 (toBytes bytecode))%list)))).
Proof.
  intros Hlen bytecode. repeat split.
  - unfold predictVanityTokenAddress. now rewrite toBytes_bytesToHex.
  - now apply predict_formula.
Qed.

Lemma prediction_hashes_minimal_proxy_bytecode_witness :
  predictVanityTokenAddress (salt sample_result)
  = getContractAddress FLAP_PORTAL_ADDRESS (toBytes (salt sample_result))
      ("0x3d602d80600a3d3981f3363d3d373d3d3d363d73"
       ++ "8b4329947e34b6d56d71a3385cac122bade7d78d"
       ++ "5af43d82803e903d91602b57fd5bf3")%string.
Proof.
  destruct (prediction_hashes_minimal_proxy_bytecode
              (toBytes (salt sample_result)) eq_refl) as (H & _).
  exact H.
Defined.

Lemma search_as_specified_refines (fuel : nat) :
  forall salt0 it0,
    bindO (bindO (vanity_loop "8888" fuel salt0 it0)
                 (fun r => let '(s, n) := r in
                           bindO (predictVanityTokenAddress s)
                                 (fun a => Return ({| salt := s; address := a |}, n))))
          (fun r => Return (fst r))
    = Spec.findVanitySalt FLAP_PORTAL_ADDRESS NON_TAX_TOKEN_IMPL "8888" salt0 fuel.
Proof.
  induction fuel as [|fuel IH]; intros salt0 it0; [reflexivity|].
  cbn [vanity_loop Spec.findVanitySalt].
  change (Spec.CREATE2 FLAP_PORTAL_ADDRESS salt0
            (Spec.minimal_proxy NON_TAX_TOKEN_IMPL))
    with (predictVanityTokenAddress salt0).
  destruct (predictVanityTokenAddress salt0) as [a| |] eqn:Hp;
    cbn [bindO]; try reflexivity.
  destruct (endsWith (toLowerCase a) "8888"); cbn [negb bindO].
  - rewrite Hp. reflexivity.
  - apply IH.
Qed.

(** C8, as stated, fails: the result of the service's search is not the
    result of the contract at the configuration a caller would choose, here
    the portal, the implementation and the empty suffix. *)
Lemma search_ignores_requested_configuration :
  findVanityTokenSalt sample_random 3
  <> Spec.findVanitySalt FLAP_PORTAL_ADDRESS NON_TAX_TOKEN_IMPL EmptyString
       (initial_salt sample_random) 3.
Proof. intros H. vm_compute in H. discriminate H. Qed.

(** C8 (amended): [findVanityTokenSalt] takes no configuration: the
    deployer is the module constant FLAP_PORTAL_ADDRESS, the implementation
    the module constant NON_TAX_TOKEN_IMPL and the suffix the local constant
    8888; its result is that of the specified search at these three values,
    so it is a function of the random seed alone. *)
Theorem search_is_the_contract_at_the_module_constants
  (randomBytes : list byte) (fuel : nat) :
  findVanityTokenSalt randomBytes fuel
  = Spec.findVanitySalt FLAP_PORTAL_ADDRESS NON_TAX_TOKEN_IMPL "8888"
      (initial_salt randomBytes) fuel.
Proof. apply search_as_specified_refines. Qed.

End VanitySearch.

(** ** Statements about [FlapService] *)

Module ServiceFacts.

Import JS Viem Flap Chain.
Local Open Scope string_scope.
Local Open Scope list_scope.

(** Every transaction among the calls listed in the goal is one of the two
    the statement allows. *)
Ltac only_these_transactions :=
  let c := fresh "c" in
  let Hin := fresh "Hin" in
  let Hc := fresh "Hc" in
  intros c Hin Hc; cbn [In] in Hin;
  repeat (destruct Hin as [<-|Hin]); try contradiction; try discriminate Hc;
  eexists; (split; [reflexivity|]); (split; [assumption|]); auto.

(** A run of [sellAllTokens] that stops on a failed call, having made the
    calls [rest] after the balance read. *)
Ltac run_stops rest :=
  intros [= <- <-]; exists rest; rewrite <- ?app_assoc;
  (split; [reflexivity|]); (split; [congruence|]);
  (split; [only_these_transactions|]);
  let b := fresh "b" in
  intros b [= <-] _; (split; [now eexists|discriminate]).

Section WithWorld.

Variable world : World.
Variable parseEther : string -> Outcome N.
Variable decodeEventLog : Log -> option DecodedEvent.
Variable account_address : Address.

(** The loop over the logs either leaves [tokenAddress] as it was, or sets
    it to the [token] argument of a log that decodes to TokenCreated. *)
Lemma scan_logs_cases (logs : list Log) (init : option Address) :
  scan_logs decodeEventLog logs init = init
  \/ exists log decoded a,
       In log logs /\ decodeEventLog log = Some decoded
       /\ eventName decoded = "TokenCreated" /\ args decoded = Some a
       /\ scan_logs decodeEventLog logs init = token a.
Proof.
  induction logs as [|log rest IH]; [now left|].
  cbn [scan_logs].
  assert (Hrest :
    scan_logs decodeEventLog rest init = init
    \/ exists log0 decoded a,
         In log0 (log :: rest) /\ decodeEventLog log0 = Some decoded
         /\ eventName decoded = "TokenCreated" /\ args decoded = Some a
         /\ scan_logs decodeEventLog rest init = token a).
  { destruct IH as [IH | (l & d & a & Hin & IH)]; [now left | right].
    exists l, d, a. split; [now right | exact IH]. }
  destruct (has_topic0 log); [|exact Hrest].
  destruct (decodeEventLog log) as [decoded|] eqn:Hdec; [|exact Hrest].
  destruct (String.eqb_spec (eventName decoded) "TokenCreated") as [Hname|_];
    [|exact Hrest].
  destruct (args decoded) as [a|] eqn:Hargs; [|exact Hrest].
  right. exists log, decoded, a. repeat split; trivial. now left.
Qed.

Lemma scan_logs_no_event (logs : list Log) (init : option Address) :
  (forall log, In log logs -> ~ decodes_to_TokenCreated decodeEventLog log) ->
  scan_logs decodeEventLog logs init = init.
Proof.
  intros Hnone.
  destruct (scan_logs_cases logs init) as [H | (log & d & a & Hin & Hd & Hn & _)];
    [exact H|].
  exfalso. apply (Hnone log Hin). now exists d.
Qed.

(** What the end of [createToken] returns. *)
Lemma token_of_receipt_returns (receipt : Receipt) (hash : Hex) (r : CreatedToken) :
  token_of_receipt decodeEventLog receipt hash = Return r ->
  txHash r = hash
  /\ tokenAddress r <> Some ZERO_ADDRESS
  /\ exists log decoded a,
       In log (logs receipt) /\ decodeEventLog log = Some decoded
       /\ eventName decoded = "TokenCreated" /\ args decoded = Some a
       /\ tokenAddress r = token a.
Proof.
  unfold token_of_receipt.
  destruct (scan_logs_cases (logs receipt) (Some ZERO_ADDRESS))
    as [Hsame | (log & d & a & Hin & Hd & Hn & Ha & Hscan)].
  - rewrite Hsame, String.eqb_refl. discriminate.
  - rewrite Hscan.
    destruct (token a) as [addr|] eqn:Htok.
    + destruct (String.eqb_spec addr ZERO_ADDRESS) as [|Hneq]; [discriminate|].
      intros [= <-]. cbn [txHash tokenAddress].
      repeat split; [congruence|]. exists log, d, a. now rewrite Htok.
    + intros [= <-]. cbn [txHash tokenAddress].
      repeat split; [discriminate|]. exists log, d, a. now rewrite Htok.
Qed.

Lemma token_of_receipt_no_event (receipt : Receipt) (hash : Hex) :
  (forall log, In log (logs receipt) -> ~ decodes_to_TokenCreated decodeEventLog log) ->
  token_of_receipt decodeEventLog receipt hash
  = Throw "Token address not found in transaction logs".
Proof.
  intros Hnone. unfold token_of_receipt.
  now rewrite (scan_logs_no_event _ _ Hnone), String.eqb_refl.
Qed.

Lemma last_call_of_run (t t0 pre calls : list Call) (c : Call) (hash : Hex) :
  t0 = t ++ pre ->
  t0 ++ [c] = t ++ calls ++ [WaitForTransactionReceipt hash] ->
  c = WaitForTransactionReceipt hash.
Proof.
  intros -> Heq. rewrite <- app_assoc in Heq. apply app_inv_head in Heq.
  now apply app_inj_tail in Heq.
Qed.

(** A run of [createToken] that gets as far as a receipt ends as
    [token_of_receipt] does; a run that makes a call after the start and
    ends on a receipt wait answered by a receipt is such a run. *)
Lemma createToken_inversion
  (name symbol imageUrl : string) (tweetUrl description initialBuyAmount : option string)
  (fuel : nat) (t t' : list Call) (o : Outcome CreatedToken) :
  createToken world parseEther decodeEventLog account_address
    name symbol imageUrl tweetUrl description initialBuyAmount fuel t = (t', o) ->
  (exists calls hash receipt,
      t' = t ++ calls ++ [WaitForTransactionReceipt hash]
      /\ waitForTransactionReceipt world t' = Return receipt
      /\ o = token_of_receipt decodeEventLog receipt hash)
  \/ ((forall r, o <> Return r)
      /\ forall calls hash receipt,
           t' = t ++ calls ++ [WaitForTransactionReceipt hash] ->
           waitForTransactionReceipt world t' <> Return receipt).
Proof.
  unfold createToken, bind, lift, call, throw.
  destruct (parseEther _) as [quoteAmount| |].
  2,3: intros [= <- <-]; right; split; [discriminate|];
       intros calls hash receipt Heq; exfalso;
       apply (f_equal (@List.length Call)) in Heq;
       rewrite !length_app in Heq; cbn in Heq; lia.
  set (upload := UploadFlapMetadata _ _ _ _ _ _ _).
  set (t1 := t ++ [upload]).
  destruct (uploadFlapMetadata world t1) as [[metadataCid|]| |].
  2,3,4: intros [= <- <-]; right; split; [discriminate|];
         intros calls hash receipt Heq;
         apply (last_call_of_run t t [] _ _ _ (eq_sym (app_nil_r t))) in Heq;
         unfold upload in Heq; discriminate Heq.
  destruct (metadataCid =? EmptyString)%string.
  { intros [= <- <-]; right; split; [discriminate|].
    intros calls hash receipt Heq.
    apply (last_call_of_run t t [] _ _ _ (eq_sym (app_nil_r t))) in Heq.
    unfold upload in Heq. discriminate Heq. }
  set (t2 := t1 ++ [RandomBytes 32]).
  destruct (findVanityTokenSalt (randomBytes world t2) fuel) as [vanity| |].
  2,3: intros [= <- <-]; right; split; [discriminate|];
       intros calls hash receipt Heq;
       apply (last_call_of_run t t1 [upload] _ _ _ eq_refl) in Heq;
       discriminate Heq.
  set (write := WriteContract _ _ _ _ _).
  set (t3 := t2 ++ [write]).
  assert (Ht2 : t2 = t ++ [upload; RandomBytes 32])
    by (unfold t2, t1; now rewrite <- app_assoc).
  destruct (writeContract world t3) as [hash| |].
  2,3: intros [= <- <-]; right; split; [discriminate|];
       intros calls hash' receipt Heq;
       apply (last_call_of_run t t2 _ _ _ _ Ht2) in Heq;
       unfold write in Heq; discriminate Heq.
  set (t4 := t3 ++ [WaitForTransactionReceipt hash]).
  assert (Ht4 : t4 = t ++ [upload; RandomBytes 32; write]
                       ++ [WaitForTransactionReceipt hash]).
  { unfold t4, t3. rewrite Ht2. now rewrite <- !app_assoc. }
  destruct (waitForTransactionReceipt world t4) as [receipt| |] eqn:Hwait.
  - intros [= <- <-]. left. exists [upload; RandomBytes 32; write], hash, receipt.
    repeat split; trivial.
  - intros [= <- <-]. right. split; [discriminate|].
    intros calls hash' receipt _. rewrite Hwait. discriminate.
  - intros [= <- <-]. right. split; [discriminate|].
    intros calls hash' receipt _. rewrite Hwait. discriminate.
Qed.

(** C9: [createToken] never returns the zero address as token address.
    When it returns, the receipt it waited for has a log that decodes to
    a TokenCreated event and the returned token address is the [token]
    argument of that event; when the receipt it waited for has no log
    that decodes to a TokenCreated event, it throws "Token address not
    found in transaction logs". *)
Theorem createToken_never_returns_zero_address
  (name symbol imageUrl : string) (tweetUrl description initialBuyAmount : option string)
  (fuel : nat) (t t' : list Call) (o : Outcome CreatedToken) :
  createToken world parseEther decodeEventLog account_address
    name symbol imageUrl tweetUrl description initialBuyAmount fuel t = (t', o) ->
  (forall r, o = Return r ->
     tokenAddress r <> Some ZERO_ADDRESS
     /\ exists calls receipt log decoded a,
          t' = t ++ calls ++ [WaitForTransactionReceipt (txHash r)]
          /\ waitForTransactionReceipt world t' = Return receipt
          /\ In log (logs receipt) /\ decodeEventLog log = Some decoded
          /\ eventName decoded = "TokenCreated" /\ args decoded = Some a
          /\ tokenAddress r = token a)
  /\ (forall calls hash receipt,
        t' = t ++ calls ++ [WaitForTransactionReceipt hash] ->
        waitForTransactionReceipt world t' = Return receipt ->
        (forall log, In log (logs receipt) -> ~ decodes_to_TokenCreated decodeEventLog log) ->
        o = Throw "Token address not found in transaction logs").
Proof.
  intros Hrun.
  destruct (createToken_inversion _ _ _ _ _ _ _ _ _ _ Hrun)
    as [(calls & hash & receipt & Ht' & Hwait & ->) | (Hfail & Hnowait)].
  - split.
    + intros r Hr.
      destruct (token_of_receipt_returns _ _ _ Hr)
        as (Hhash & Hnz & log & d & a & Hin & Hd & Hn & Ha & Htok).
      split; [exact Hnz|].
      exists calls, receipt, log, d, a. rewrite Hhash. repeat split; trivial.
    + intros calls' hash' receipt' _ Hwait' Hnone.
      rewrite Hwait in Hwait'. injection Hwait' as <-.
      now apply token_of_receipt_no_event.
  - split.
    + intros r Hr. now apply Hfail in Hr.
    + intros calls hash receipt Ht' Hwait _.
      exfalso. exact (Hnowait calls hash receipt Ht' Hwait).
Qed.

(** C10: [sellAllTokens] first reads the balance of the wallet.  When the
    balance read is zero it returns with no other call made: no
    transaction is sent.  When it is not zero, the approval for that
    balance is sent first, every transaction sent is the approval or the
    sale of exactly that balance, and a run that returns has sent both. *)
Theorem sellAllTokens_sells_balance_read_or_nothing
  (tokenAddress : Address) (t t' : list Call) (o : Outcome unit) :
  sellAllTokens world account_address tokenAddress t = (t', o) ->
  exists rest,
    t' = t ++ balance_read account_address tokenAddress :: rest
    /\ (readContract world (t ++ [balance_read account_address tokenAddress]) = Return 0%N ->
        rest = [] /\ o = Return tt)
    /\ (forall c, In c rest -> is_transaction c = true ->
          exists balance,
            readContract world (t ++ [balance_read account_address tokenAddress]) = Return balance
            /\ balance <> 0%N
            /\ (c = approve_call tokenAddress balance
                \/ c = sell_call tokenAddress balance))
    /\ (forall balance,
          readContract world (t ++ [balance_read account_address tokenAddress]) = Return balance ->
          balance <> 0%N ->
          (exists rest', rest = approve_call tokenAddress balance :: rest')
          /\ (o = Return tt ->
              exists h1 h2,
                rest = [approve_call tokenAddress balance;
                        WaitForTransactionReceipt h1;
                        sell_call tokenAddress balance;
                        WaitForTransactionReceipt h2])).
Proof.
  unfold sellAllTokens, getTokenBalance, sellTokens, bind, call, ret.
  fold (balance_read account_address tokenAddress).
  destruct (readContract world (t ++ [balance_read account_address tokenAddress]))
    as [balance| |] eqn:Hread.
  2,3: intros [= <- <-]; exists [];
       (split; [reflexivity|]); (split; [discriminate|]);
       (split; [intros c []|discriminate]).
  destruct (N.eqb_spec balance 0) as [->|Hnz].
  { intros [= <- <-]. exists [].
    split; [reflexivity|]. split; [auto|]. split; [intros c []|].
    intros b [= <-] Hb. now elim Hb. }
  fold (approve_call tokenAddress balance) (sell_call tokenAddress balance).
  set (ap := approve_call tokenAddress balance).
  set (se := sell_call tokenAddress balance).
  destruct (writeContract world _) as [h1| |]; [|run_stops [ap]..].
  destruct (waitForTransactionReceipt world _) as [r1| |];
    [|run_stops [ap; WaitForTransactionReceipt h1]..].
  destruct (writeContract world _) as [h2| |];
    [|run_stops [ap; WaitForTransactionReceipt h1; se]..].
  destruct (waitForTransactionReceipt world _) as [r2| |];
    [|run_stops [ap; WaitForTransactionReceipt h1; se;
                 WaitForTransactionReceipt h2]..].
  intros [= <- <-].
  exists [ap; WaitForTransactionReceipt h1; se; WaitForTransactionReceipt h2].
  rewrite <- !app_assoc.
  split; [reflexivity|]. split; [congruence|].
  split; [only_these_transactions|].
  intros b [= <-] _. split; [now eexists|]. intros _. now exists h1, h2.
Qed.

End WithWorld.

(** A run of [createToken] in the sample world. *)
Example sample_createToken :
  createToken (sample_world [sample_log_other; sample_log_created] 5)
    sample_parseEther sample_decode sample_account
    "Cat" "CAT" "https://example.org/cat.png" None None None 3 []
  = (sample_create_calls ++ [WaitForTransactionReceipt "0x03"],
     Return sample_created).
Proof. vm_compute. reflexivity. Qed.

Lemma createToken_never_returns_zero_address_witness :
  tokenAddress sample_created <> Some ZERO_ADDRESS
  /\ snd (createToken (sample_world [sample_log_other] 5)
            sample_parseEther sample_decode sample_account
            "Cat" "CAT" "https://example.org/cat.png" None None None 3 [])
     = Throw "Token address not found in transaction logs".
Proof.
  split.
  - pose proof (createToken_never_returns_zero_address
                  (sample_world [sample_log_other; sample_log_created] 5)
                  sample_parseEther sample_decode sample_account
                  "Cat" "CAT" "https://example.org/cat.png" None None None 3 []
                  _ _ (surjective_pairing _)) as [Hret _].
    apply (Hret sample_created). vm_compute. reflexivity.
  - pose proof (createToken_never_returns_zero_address
                  (sample_world [sample_log_other] 5)
                  sample_parseEther sample_decode sample_account
                  "Cat" "CAT" "https://example.org/cat.png" None None None 3 []
                  _ _ (surjective_pairing _)) as [_ Hthrow].
    apply (Hthrow sample_create_calls "0x03" {| logs := [sample_log_other] |}).
    + vm_compute. reflexivity.
    + reflexivity.
    + intros log [<-|[]] (d & Hd & _). discriminate Hd.
Defined.

Lemma sellAllTokens_sells_balance_read_or_nothing_witness :
  (exists h1 h2,
     fst (sellAllTokens (sample_world [] 5) sample_account (address sample_result) [])
     = [balance_read sample_account (address sample_result);
        approve_call (address sample_result) 5;
        WaitForTransactionReceipt h1;
        sell_call (address sample_result) 5;
        WaitForTransactionReceipt h2])
  /\ sellAllTokens (sample_world [] 0) sample_account (address sample_result) []
     = ([balance_read sample_account (address sample_result)], Return tt).
Proof.
  split.
  - destruct (sellAllTokens_sells_balance_read_or_nothing
                (sample_world [] 5) sample_account (address sample_result)
                [] _ _ (surjective_pairing _))
      as (rest & Ht' & _ & _ & Hsell).
    destruct (Hsell 5%N eq_refl) as (_ & Hall); [discriminate|].
    destruct Hall as (h1 & h2 & ->); [vm_compute; reflexivity|].
    exists h1, h2. exact Ht'.
  - destruct (sellAllTokens_sells_balance_read_or_nothing
                (sample_world [] 0) sample_account (address sample_result)
                [] _ _ (surjective_pairing _))
      as (rest & Ht' & Hzero & _).
    destruct (Hzero eq_refl) as (-> & Ho).
    rewrite (surjective_pairing (sellAllTokens _ _ _ _)), Ht', Ho. reflexivity.
Defined.

End ServiceFacts.

(** ** More about the salt search *)

Module SearchMore.

Import JS Viem Flap Chain HexFacts SearchFacts.
Local Open Scope string_scope.

Lemma length_bytesToHex (bs : list byte) :
  String.length (bytesToHex bs) = 2 + 2 * List.length bs.
Proof. unfold bytesToHex. cbn [append String.length]. now rewrite length_hexes. Qed.

(** The digits written for a byte array determine the array. *)
Lemma hexes_injective (bs bs' : list byte) : hexes bs = hexes bs' -> bs = bs'.
Proof.
  intros H. apply (f_equal parse_pairs) in H.
  rewrite !parse_pairs_hexes in H. now injection H.
Qed.

Lemma lower_hex_digit (b : byte) :
  lower_char (nibble_char (Byte.to_N b / 16)) = nibble_char (Byte.to_N b / 16)
  /\ lower_char (nibble_char (Byte.to_N b mod 16)) = nibble_char (Byte.to_N b mod 16)
  /\ lower_char (upper_char (nibble_char (Byte.to_N b / 16)))
     = nibble_char (Byte.to_N b / 16)
  /\ lower_char (upper_char (nibble_char (Byte.to_N b mod 16)))
     = nibble_char (Byte.to_N b mod 16).
Proof. destruct b; repeat split; reflexivity. Qed.

Lemma toLowerCase_hexes (bs : list byte) : toLowerCase (hexes bs) = hexes bs.
Proof.
  induction bs as [|b bs IH]; [reflexivity|].
  cbn [hexes]. unfold byte_hex. cbn [append toLowerCase].
  destruct (lower_hex_digit b) as (-> & -> & _). now rewrite IH.
Qed.

Lemma toLowerCase_checksum_chars (hash : list byte) (bs : list byte) :
  forall i, toLowerCase (checksum_chars hash i (hexes bs)) = hexes bs.
Proof.
  induction bs as [|b bs IH]; intros i; [reflexivity|].
  cbn [hexes]. unfold byte_hex. cbn [append checksum_chars toLowerCase].
  destruct (lower_hex_digit b) as (Hh & Hl & Huh & Hul).
  rewrite IH. f_equal; [|f_equal].
  - destruct (_ && _); assumption.
  - destruct (_ && _); assumption.
Qed.

(** Lower-casing a checksummed address gives the plain hex string back: the
    EIP-55 capitals carry no information for the suffix test. *)
Lemma toLowerCase_checksumAddress (bs : list byte) :
  toLowerCase (checksumAddress (bytesToHex bs)) = bytesToHex bs.
Proof.
  unfold checksumAddress, bytesToHex. cbn [append]. rewrite slice_2_0x.
  cbn [toLowerCase]. rewrite toLowerCase_hexes, toLowerCase_checksum_chars.
  reflexivity.
Qed.

Lemma length_create2_formula (deployer salt bytecode : list byte) :
  List.length (Spec.create2_formula deployer salt bytecode) = 20.
Proof.
  unfold Spec.create2_formula. now rewrite length_skipn, length_keccak_256.
Qed.

(** X1: for every seed and every bound on the number of loop tests, the
    search either is still running or has returned; it never throws, and a
    returned salt is "0x" followed by the 64 hex digits of 32 bytes, the
    returned address "0x" followed by 40 hex digits. *)
Theorem search_never_throws_and_returns_bytes32
  (randomBytes : list byte) (fuel : nat) :
  findVanityTokenSalt randomBytes fuel = OutOfFuel
  \/ exists r,
       findVanityTokenSalt randomBytes fuel = Return r
       /\ wf_salt (salt r)
       /\ String.length (salt r) = 66
       /\ isAddress (address r) = true.
Proof.
  destruct (findVanityTokenSalt randomBytes fuel) as [r|e|] eqn:Hrun.
  - right. exists r. split; [reflexivity|].
    unfold findVanityTokenSalt in Hrun.
    destruct (vanity_search "8888" randomBytes fuel) as [[r' n]| |] eqn:Hs;
      cbn [bindO] in Hrun; try discriminate.
    injection Hrun as <-. cbn [fst].
    apply vanity_search_sound in Hs as (Hloop & Hp & _).
    apply vanity_loop_sound in Hloop as (k & _ & _ & Hsalt & _).
    assert (Hwf : wf_salt (salt r'))
      by (rewrite Hsalt; apply wf_salt_chain, wf_salt_initial).
    split; [exact Hwf|]. split.
    + destruct Hwf as (bytes & Hlen & ->).
      now rewrite length_bytesToHex, Hlen.
    + unfold predictVanityTokenAddress in Hp.
      now apply getContractAddress_isAddress in Hp.
  - now apply findVanityTokenSalt_no_throw in Hrun.
  - now left.
Qed.

(** X2: if the salt number [k] of the hash chain is the first whose
    predicted address ends in 8888, the search is still running after [k]
    tests of the loop condition or fewer, and with any larger bound it
    returns that salt with its predicted address: the result does not
    depend on the bound. *)
Theorem search_outcome_by_first_accepted_salt
  (randomBytes : list byte) (k : nat) :
  let salt0 := initial_salt randomBytes in
  accepts "8888" (chain salt0 k) = true ->
  (forall j, j < k -> accepts "8888" (chain salt0 j) = false) ->
  exists a,
    predictVanityTokenAddress (chain salt0 k) = Return a
    /\ forall fuel,
         (fuel <= k -> findVanityTokenSalt randomBytes fuel = OutOfFuel)
         /\ (k < fuel ->
             findVanityTokenSalt randomBytes fuel
             = Return {| salt := chain salt0 k; address := a |}).
Proof.
  intros salt0 Hacc Hmin.
  destruct (predict_total (chain salt0 k)) as [a Hp];
    [apply wf_salt_chain, wf_salt_initial|].
  exists a. split; [exact Hp|]. intros fuel.
  unfold findVanityTokenSalt, vanity_search. fold salt0. split; intros Hfuel.
  - destruct (vanity_loop "8888" fuel salt0 0) as [[s n]|e|] eqn:Hloop;
      [| |reflexivity].
    + apply vanity_loop_sound in Hloop as (k' & Hk' & _ & -> & Hacc' & _).
      rewrite Hmin in Hacc' by lia. discriminate.
    + now apply vanity_loop_no_throw in Hloop; [|apply wf_salt_initial].
  - destruct (vanity_loop_complete "8888" k fuel salt0 0
                (wf_salt_initial randomBytes) Hfuel Hacc) as (k' & Hk' & Hloop).
    pose proof Hloop as Hs.
    apply vanity_loop_sound in Hs as (k'' & _ & Hn & _ & Hacc' & _).
    cbn [Nat.add] in Hn. subst k''.
    assert (k' = k).
    { destruct (Nat.eq_dec k' k) as [|Hneq]; [assumption|].
      rewrite Hmin in Hacc' by lia. discriminate. }
    subst k'. rewrite Hloop. cbn [bindO]. rewrite Hp. reflexivity.
Qed.

Lemma search_outcome_by_first_accepted_salt_witness :
  findVanityTokenSalt sample_random 2 = OutOfFuel
  /\ findVanityTokenSalt sample_random 7
     = Return {| salt := chain (initial_salt sample_random) 2;
                 address := address sample_result |}.
Proof.
  destruct (search_outcome_by_first_accepted_salt sample_random 2)
    as (a & Hp & Hfuel).
  - vm_compute. reflexivity.
  - intros [|[|j]] Hj; [vm_compute; reflexivity..|lia].
  - assert (a = address sample_result) as ->.
    { assert (Hp' : predictVanityTokenAddress (chain (initial_salt sample_random) 2)
                    = Return (address sample_result)) by (vm_compute; reflexivity).
      rewrite Hp' in Hp. now injection Hp. }
    split; [apply (Hfuel 2) | apply (Hfuel 7)]; lia.
Defined.

(** X3: a 32-byte salt is accepted exactly when the last two bytes of the
    CREATE2 hash are 0x88 0x88: the loop lower-cases the checksummed
    address, so the test does not depend on the EIP-55 capitals. *)
Theorem salt_accepted_iff_hash_ends_in_8888 (bytes : list byte) :
  List.length bytes = 32 ->
  accepts "8888" (bytesToHex bytes) = true
  <-> skipn 18 (Spec.create2_formula portal_bytes bytes proxy_bytes) = [x88; x88].
Proof.
  intros Hlen. unfold accepts. rewrite (predict_formula bytes Hlen).
  set (low20 := Spec.create2_formula portal_bytes bytes proxy_bytes).
  assert (Hlow : List.length low20 = 20) by apply length_create2_formula.
  rewrite toLowerCase_checksumAddress.
  unfold endsWith. rewrite length_bytesToHex, Hlow. cbn [String.length Nat.leb andb].
  change (2 + 2 * 20 - 4) with (S (S (18 * 2))).
  unfold bytesToHex. cbn [append slice]. rewrite slice_hexes.
  change "8888" with (hexes [x88; x88]).
  split.
  - intros H. apply String.eqb_eq in H. now apply hexes_injective.
  - intros ->. apply String.eqb_refl.
Qed.

Lemma salt_accepted_iff_hash_ends_in_8888_witness :
  skipn 18 (Spec.create2_formula portal_bytes
              (toBytes (salt sample_result)) proxy_bytes) = [x88; x88].
Proof.
  apply (salt_accepted_iff_hash_ends_in_8888 (toBytes (salt sample_result)) eq_refl).
  vm_compute. reflexivity.
Defined.

End SearchMore.

(** ** More about [FlapService] *)

Module ServiceMore.

Import JS Viem Flap Chain Pipeline HexFacts SearchFacts.
Local Open Scope string_scope.
Local Open Scope list_scope.

Lemma failed_not_Return {A B : Type} (x : Outcome A) (y : Outcome B) :
  failed x y -> (forall a, x <> Return a) /\ (forall b, y <> Return b).
Proof. destruct x, y; cbn; intros H; try contradiction; split; discriminate. Qed.

(** A failure is passed on as it is. *)
Ltac pass_failure :=
  match goal with
  | |- failed (Throw _) (Throw _) => reflexivity
  | |- failed OutOfFuel OutOfFuel => exact I
  end.

Section WithWorld.

Variable world : World.
Variable parseEther : string -> Outcome N.
Variable decodeEventLog : Log -> option DecodedEvent.
Variable account_address : Address.

(** The runs of [createToken], stage by stage. *)
Lemma createToken_stages
  (name symbol imageUrl : string) (tweetUrl description initialBuyAmount : option string)
  (fuel : nat) (t t' : list Call) (o : Outcome CreatedToken) :
  createToken world parseEther decodeEventLog account_address
    name symbol imageUrl tweetUrl description initialBuyAmount fuel t = (t', o) ->
  let up := upload_call imageUrl name symbol tweetUrl description in
  (t' = t /\ failed (parseEther (buy_amount initialBuyAmount)) o)
  \/ exists quoteAmount,
       parseEther (buy_amount initialBuyAmount) = Return quoteAmount
       /\ ((t' = t ++ [up]
            /\ (failed (uploadFlapMetadata world (t ++ [up])) o
                \/ ((uploadFlapMetadata world (t ++ [up]) = Return None
                     \/ uploadFlapMetadata world (t ++ [up]) = Return (Some EmptyString))
                    /\ o = Throw "Failed to upload metadata to IPFS")))
           \/ exists metadataCid,
                uploadFlapMetadata world (t ++ [up]) = Return (Some metadataCid)
                /\ metadataCid <> EmptyString
                /\ let rnd := randomBytes world (t ++ [up; RandomBytes 32]) in
                   ((t' = t ++ [up; RandomBytes 32]
                     /\ failed (findVanityTokenSalt rnd fuel) o)
                    \/ exists vanity,
                         findVanityTokenSalt rnd fuel = Return vanity
                         /\ let tx :=
                              newToken_call
                                (newToken_params name symbol metadataCid
                                   (salt vanity) quoteAmount account_address)
                                quoteAmount in
                            ((t' = t ++ [up; RandomBytes 32; tx]
                              /\ failed (writeContract world t') o)
                             \/ exists hash,
                                  writeContract world (t ++ [up; RandomBytes 32; tx])
                                  = Return hash
                                  /\ t' = t ++ [up; RandomBytes 32; tx;
                                                WaitForTransactionReceipt hash]
                                  /\ (failed (waitForTransactionReceipt world t') o
                                      \/ exists receipt,
                                           waitForTransactionReceipt world t'
                                           = Return receipt
                                           /\ o = token_of_receipt decodeEventLog
                                                    receipt hash)))).
Proof.
  intros Hrun. cbv zeta.
  unfold createToken, bind, lift, call, throw in Hrun.
  fold (buy_amount initialBuyAmount) in Hrun.
  fold (upload_call imageUrl name symbol tweetUrl description) in Hrun.
  set (up := upload_call imageUrl name symbol tweetUrl description) in *.
  destruct (parseEther (buy_amount initialBuyAmount)) as [quoteAmount| |].
  2,3: injection Hrun as <- <-; left; split; [reflexivity | pass_failure].
  right. exists quoteAmount. split; [reflexivity|].
  destruct (uploadFlapMetadata world (t ++ [up])) as [[metadataCid|]| |].
  2,3,4: injection Hrun as <- <-; left; split; [reflexivity|];
         first [left; pass_failure | right; split; [now left | reflexivity]].
  destruct (String.eqb_spec metadataCid EmptyString) as [Hempty|Hcid].
  { injection Hrun as <- <-. left. split; [reflexivity|].
    right. split; [right; now rewrite Hempty | reflexivity]. }
  right. exists metadataCid. split; [reflexivity|]. split; [exact Hcid|].
  rewrite <- !app_assoc in Hrun. cbn [app] in Hrun.
  set (rnd := randomBytes world (t ++ [up; RandomBytes 32])) in *.
  destruct (findVanityTokenSalt rnd fuel) as [vanity| |].
  2,3: injection Hrun as <- <-; left; split; [reflexivity | pass_failure].
  right. exists vanity. split; [reflexivity|].
  rewrite <- !app_assoc in Hrun. cbn [app] in Hrun.
  fold (newToken_params name symbol metadataCid (salt vanity) quoteAmount
          account_address) in Hrun.
  fold (newToken_call
          (newToken_params name symbol metadataCid (salt vanity) quoteAmount
             account_address) quoteAmount) in Hrun.
  set (tx := newToken_call _ quoteAmount) in *.
  destruct (writeContract world (t ++ [up; RandomBytes 32; tx]))
    as [hash| |] eqn:Hwrite.
  2,3: injection Hrun as <- <-; left; split; [reflexivity|];
       rewrite Hwrite; pass_failure.
  rewrite <- !app_assoc in Hrun. cbn [app] in Hrun.
  right. exists hash. split; [reflexivity|].
  destruct (waitForTransactionReceipt world _) as [receipt| |] eqn:Hwait;
    injection Hrun as <- <-; (split; [reflexivity|]); rewrite Hwait.
  - right. exists receipt. split; reflexivity.
  - left. pass_failure.
  - left. pass_failure.
Qed.

(** What the search hands to [createToken]. *)
Lemma findVanityTokenSalt_sound (rnd : list byte) (fuel : nat) (vanity : VanitySalt) :
  findVanityTokenSalt rnd fuel = Return vanity ->
  predictVanityTokenAddress (salt vanity) = Return (address vanity)
  /\ accepts "8888" (salt vanity) = true.
Proof.
  unfold findVanityTokenSalt. intros Hrun.
  destruct (vanity_search "8888" rnd fuel) as [[r n]| |] eqn:Hs;
    cbn [bindO] in Hrun; try discriminate.
  injection Hrun as <-. cbn [fst].
  apply vanity_search_sound in Hs as (_ & Hp & Hends).
  split; [exact Hp|]. unfold accepts. now rewrite Hp.
Qed.

(** X4: [createToken] spends nothing without metadata.  When the amount
    does not parse, the exception of [parseEther] is passed on and no call
    is made at all.  When the upload does not give a non-empty CID, the
    upload is the only call made: no random bytes are drawn, no transaction
    is sent, the function does not return, and if the uploader answered
    null or the empty string the exception is "Failed to upload metadata to
    IPFS". *)
Theorem createToken_without_metadata_sends_nothing
  (name symbol imageUrl : string) (tweetUrl description initialBuyAmount : option string)
  (fuel : nat) (t t' : list Call) (o : Outcome CreatedToken) :
  createToken world parseEther decodeEventLog account_address
    name symbol imageUrl tweetUrl description initialBuyAmount fuel t = (t', o) ->
  let up := upload_call imageUrl name symbol tweetUrl description in
  (forall e, parseEther (buy_amount initialBuyAmount) = Throw e ->
             t' = t /\ o = Throw e)
  /\ ((forall cid, uploadFlapMetadata world (t ++ [up]) = Return (Some cid) ->
                   cid = EmptyString) ->
      (t' = t \/ t' = t ++ [up])
      /\ (forall r, o <> Return r)
      /\ (forall quoteAmount,
            parseEther (buy_amount initialBuyAmount) = Return quoteAmount ->
            uploadFlapMetadata world (t ++ [up]) = Return None
            \/ uploadFlapMetadata world (t ++ [up]) = Return (Some EmptyString) ->
            t' = t ++ [up] /\ o = Throw "Failed to upload metadata to IPFS")).
Proof.
  intros Hrun up.
  destruct (createToken_stages _ _ _ _ _ _ _ _ _ _ Hrun)
    as [(-> & Hfail) | (q & Hparse & Hstage)]; fold up in Hstage || idtac.
  - split.
    + intros e He. rewrite He in Hfail. destruct o; cbn in Hfail; try contradiction.
      now subst.
    + intros _. split; [now left|]. split.
      * apply (failed_not_Return _ _ Hfail).
      * intros q Hq. rewrite Hq in Hfail. contradiction.
  - split; [intros e He; congruence|]. intros Hnocid.
    destruct Hstage as [(-> & Hup) | (cid & Hcid & Hne & _)].
    + split; [now right|]. split.
      * destruct Hup as [Hfail | (_ & ->)]; [|discriminate].
        apply (failed_not_Return _ _ Hfail).
      * intros q' _ Hnull. split; [reflexivity|].
        destruct Hup as [Hfail | (_ & ->)]; [|reflexivity].
        destruct Hnull as [Hn | Hn]; rewrite Hn in Hfail; contradiction.
    + now apply Hnocid in Hcid.
Qed.

(** X5: [createToken] sends one transaction at most.  A transaction it
    sends is a call of [newTokenV5] on the portal: its value and [quoteAmt]
    are the parsed amount, [meta] is the non-empty CID the uploader
    returned, [beneficiary] is the account, the tax rate is 0, and [salt] is
    the salt the search returned, whose predicted address ends in 8888. *)
Theorem createToken_sends_one_newTokenV5
  (name symbol imageUrl : string) (tweetUrl description initialBuyAmount : option string)
  (fuel : nat) (t t' : list Call) (o : Outcome CreatedToken) :
  createToken world parseEther decodeEventLog account_address
    name symbol imageUrl tweetUrl description initialBuyAmount fuel t = (t', o) ->
  let up := upload_call imageUrl name symbol tweetUrl description in
  exists calls,
    t' = t ++ calls
    /\ List.length (transactions calls) <= 1
    /\ forall c, In c calls -> is_transaction c = true ->
         exists quoteAmount metadataCid vanity,
           parseEther (buy_amount initialBuyAmount) = Return quoteAmount
           /\ uploadFlapMetadata world (t ++ [up]) = Return (Some metadataCid)
           /\ metadataCid <> EmptyString
           /\ findVanityTokenSalt (randomBytes world (t ++ [up; RandomBytes 32])) fuel
              = Return vanity
           /\ predictVanityTokenAddress (salt vanity) = Return (address vanity)
           /\ accepts "8888" (salt vanity) = true
           /\ c = newToken_call
                    (newToken_params name symbol metadataCid (salt vanity)
                       quoteAmount account_address) quoteAmount.
Proof.
  intros Hrun up.
  destruct (createToken_stages _ _ _ _ _ _ _ _ _ _ Hrun)
    as [(-> & _) | (q & Hparse & Hstage)].
  { exists []. rewrite app_nil_r. repeat split; [cbn; lia|]. intros c []. }
  fold up in Hstage.
  destruct Hstage as [(-> & _) | (cid & Hcid & Hne & Hstage)].
  { exists [up]. repeat split; [cbn; lia|].
    intros c [<-|[]] Hc. discriminate Hc. }
  cbv zeta in Hstage.
  destruct Hstage as [(-> & _) | (vanity & Hfind & Hstage)].
  { exists [up; RandomBytes 32]. repeat split; [cbn; lia|].
    intros c [<-|[<-|[]]] Hc; discriminate Hc. }
  destruct (findVanityTokenSalt_sound _ _ _ Hfind) as (Hp & Hacc).
  assert (Htx : forall calls c,
            (forall c', In c' calls -> is_transaction c' = true ->
                        c' = newToken_call
                               (newToken_params name symbol cid (salt vanity) q
                                  account_address) q) ->
            In c calls -> is_transaction c = true ->
            exists quoteAmount metadataCid vanity0,
              parseEther (buy_amount initialBuyAmount) = Return quoteAmount
              /\ uploadFlapMetadata world (t ++ [up]) = Return (Some metadataCid)
              /\ metadataCid <> EmptyString
              /\ findVanityTokenSalt (randomBytes world (t ++ [up; RandomBytes 32])) fuel
                 = Return vanity0
              /\ predictVanityTokenAddress (salt vanity0) = Return (address vanity0)
              /\ accepts "8888" (salt vanity0) = true
              /\ c = newToken_call
                       (newToken_params name symbol metadataCid (salt vanity0)
                          quoteAmount account_address) quoteAmount).
  { intros calls c Hall Hin Hc. exists q, cid, vanity.
    repeat split; trivial. now apply Hall. }
  destruct Hstage as [(-> & _) | (hash & _ & -> & _)].
  - eexists. split; [reflexivity|]. split; [cbn; lia|].
    intros c. apply Htx.
    intros c' [<-|[<-|[<-|[]]]] Hc'; try discriminate Hc'. reflexivity.
  - eexists. split; [reflexivity|]. split; [cbn; lia|].
    intros c. apply Htx.
    intros c' [<-|[<-|[<-|[<-|[]]]]] Hc'; try discriminate Hc'. reflexivity.
Qed.

Lemma scan_logs_first (pre post : list Log) (log : Log) (init : option Address) :
  (forall l, In l pre -> creates decodeEventLog l = false) ->
  creates decodeEventLog log = true ->
  scan_logs decodeEventLog (pre ++ log :: post) init = token_of decodeEventLog log.
Proof.
  intros Hpre Hlog. induction pre as [|l pre IH].
  - cbn [app scan_logs]. unfold creates, token_of in *.
    destruct (has_topic0 log); [|discriminate].
    destruct (decodeEventLog log) as [d|]; [|discriminate].
    cbn [andb] in Hlog.
    destruct (eventName d =? "TokenCreated"); [|discriminate].
    destruct (args d); [reflexivity | discriminate].
  - cbn [app scan_logs].
    assert (Hl : creates decodeEventLog l = false) by (apply Hpre; now left).
    assert (IH' : scan_logs decodeEventLog (pre ++ log :: post) init
                  = token_of decodeEventLog log)
      by (apply IH; intros l' Hl'; apply Hpre; now right).
    unfold creates in Hl.
    destruct (has_topic0 l); [|exact IH'].
    destruct (decodeEventLog l) as [d|]; [|exact IH'].
    cbn [andb] in Hl.
    destruct (eventName d =? "TokenCreated"); [|exact IH'].
    destruct (args d); [discriminate | exact IH'].
Qed.

(** X6: only the first log of the receipt that has a first topic and
    decodes to a TokenCreated event with arguments counts; the logs after it
    are not looked at.  If its [token] is the zero address, [createToken]
    throws, whatever the later logs hold; if the event has no [token]
    argument the token address returned is [undefined]. *)
Theorem createToken_reads_first_TokenCreated_log
  (receipt : Receipt) (hash : Hex) (pre post : list Log) (log : Log) :
  logs receipt = pre ++ log :: post ->
  (forall l, In l pre -> creates decodeEventLog l = false) ->
  creates decodeEventLog log = true ->
  token_of_receipt decodeEventLog receipt hash
  = match token_of decodeEventLog log with
    | Some a =>
        if (a =? ZERO_ADDRESS)%string
        then Throw "Token address not found in transaction logs"
        else Return {| tokenAddress := Some a; txHash := hash |}
    | None => Return {| tokenAddress := None; txHash := hash |}
    end.
Proof.
  intros Hlogs Hpre Hlog. unfold token_of_receipt.
  rewrite Hlogs, (scan_logs_first pre post log _ Hpre Hlog).
  destruct (token_of decodeEventLog log); reflexivity.
Qed.

(** X7: [buyTokens] sends at most one transaction, the call of [buy] on the
    portal for the token, with the account as recipient, minimum amount 0
    and the parsed amount as value; when the amount does not parse nothing
    is sent; the hash is returned only after the receipt of that
    transaction was obtained. *)
Theorem buyTokens_sends_one_buy
  (tokenAddress : Address) (bnbAmount : string)
  (t t' : list Call) (o : Outcome Hex) :
  buyTokens world parseEther account_address tokenAddress bnbAmount t = (t', o) ->
  exists calls,
    t' = t ++ calls
    /\ List.length (transactions calls) <= 1
    /\ (forall c, In c calls -> is_transaction c = true ->
          exists value,
            parseEther bnbAmount = Return value
            /\ c = buy_call tokenAddress account_address value)
    /\ ((forall value, parseEther bnbAmount <> Return value) ->
        calls = [] /\ failed (parseEther bnbAmount) o)
    /\ (forall hash, o = Return hash ->
          exists value receipt,
            parseEther bnbAmount = Return value
            /\ calls = [buy_call tokenAddress account_address value;
                        WaitForTransactionReceipt hash]
            /\ writeContract world (t ++ [buy_call tokenAddress account_address value])
               = Return hash
            /\ waitForTransactionReceipt world t' = Return receipt).
Proof.
  unfold buyTokens, bind, lift, call, ret.
  destruct (parseEther bnbAmount) as [value| |].
  2,3: intros [= <- <-]; exists []; rewrite app_nil_r;
       (split; [reflexivity|]); (split; [cbn; lia|]);
       (split; [intros c []|]); (split; [intros _; split; [reflexivity|pass_failure]|]);
       discriminate.
  fold (buy_call tokenAddress account_address value).
  set (tx := buy_call tokenAddress account_address value).
  destruct (writeContract world (t ++ [tx])) as [hash| |] eqn:Hwrite.
  2,3: intros [= <- <-]; exists [tx];
       (split; [reflexivity|]); (split; [cbn; lia|]);
       (split; [intros c [<-|[]] _; now exists value|]);
       (split; [intros Hno; now elim (Hno value)|]); discriminate.
  destruct (waitForTransactionReceipt world _) as [receipt| |] eqn:Hwait;
    intros [= <- <-]; exists [tx; WaitForTransactionReceipt hash];
    rewrite <- app_assoc; cbn [app];
    (split; [reflexivity|]); (split; [cbn; lia|]);
    (split; [intros c [<-|[<-|[]]] Hc; try discriminate Hc; now exists value|]);
    (split; [intros Hno; now elim (Hno value)|]); try discriminate.
  intros h [= <-]. exists value, receipt.
  rewrite <- app_assoc in Hwait. cbn [app] in Hwait. repeat split; trivial.
Qed.

(** X8: [sellTokens] approves before it sells.  The first call is the
    approval of the portal for the amount; the sale is sent only after the
    receipt of the approval was obtained, so a failed approval means no
    sale; every transaction sent is the approval or the sale of that amount;
    the hash returned is that of the sale, after its receipt. *)
Theorem sellTokens_approves_then_sells
  (tokenAddress : Address) (amount : N) (t t' : list Call) (o : Outcome Hex) :
  sellTokens world tokenAddress amount t = (t', o) ->
  let approve := approve_call tokenAddress amount in
  let sell := sell_call tokenAddress amount in
  exists rest,
    t' = t ++ approve :: rest
    /\ (forall c, In c rest -> is_transaction c = true -> c = sell)
    /\ (In sell rest ->
        exists h1 receipt rest',
          rest = WaitForTransactionReceipt h1 :: sell :: rest'
          /\ writeContract world (t ++ [approve]) = Return h1
          /\ waitForTransactionReceipt world (t ++ [approve; WaitForTransactionReceipt h1])
             = Return receipt)
    /\ (forall hash, o = Return hash ->
          exists h1 receipt,
            rest = [WaitForTransactionReceipt h1; sell; WaitForTransactionReceipt hash]
            /\ writeContract world
                 (t ++ [approve; WaitForTransactionReceipt h1; sell]) = Return hash
            /\ waitForTransactionReceipt world t' = Return receipt).
Proof.
  intros Hrun. cbv zeta. revert Hrun.
  unfold sellTokens, bind, call, ret.
  fold (approve_call tokenAddress amount) (sell_call tokenAddress amount).
  set (approve := approve_call tokenAddress amount).
  set (sell := sell_call tokenAddress amount).
  destruct (writeContract world (t ++ [approve])) as [h1| |] eqn:Hw1.
  2,3: intros [= <- <-]; exists [];
       (split; [reflexivity|]); (split; [intros c []|]);
       (split; [intros []|]); discriminate.
  rewrite <- ?app_assoc. cbn [app].
  destruct (waitForTransactionReceipt world (t ++ [approve; WaitForTransactionReceipt h1]))
    as [r1| |] eqn:Hr1.
  2,3: intros [= <- <-]; exists [WaitForTransactionReceipt h1];
       (split; [reflexivity|]);
       (split; [intros c [<-|[]] Hc; discriminate Hc|]);
       (split; [intros [Heq|[]]; discriminate Heq|]); discriminate.
  rewrite <- ?app_assoc. cbn [app].
  destruct (writeContract world (t ++ [approve; WaitForTransactionReceipt h1; sell]))
    as [h2| |] eqn:Hw2.
  2,3: intros [= <- <-]; exists [WaitForTransactionReceipt h1; sell];
       (split; [reflexivity|]);
       (split; [intros c [<-|[<-|[]]] Hc; try discriminate Hc; reflexivity|]);
       (split; [intros _; exists h1, r1, []; repeat split; trivial|]); discriminate.
  rewrite <- ?app_assoc. cbn [app].
  destruct (waitForTransactionReceipt world
              (t ++ [approve; WaitForTransactionReceipt h1; sell;
                     WaitForTransactionReceipt h2])) as [r2| |] eqn:Hr2;
    intros [= <- <-];
    exists [WaitForTransactionReceipt h1; sell; WaitForTransactionReceipt h2];
    (split; [reflexivity|]);
    (split; [intros c [<-|[<-|[<-|[]]]] Hc; try discriminate Hc; reflexivity|]);
    (split; [intros _; exists h1, r1, [WaitForTransactionReceipt h2];
             repeat split; trivial|]); try discriminate.
  intros h [= <-]. exists h1, r2. repeat split; trivial.
Qed.

End WithWorld.

Lemma createToken_without_metadata_sends_nothing_witness :
  createToken (world_with_uploader (fun _ => Return None))
    sample_parseEther sample_decode sample_account
    "Cat" "CAT" "https://example.org/cat.png" None None None 3 []
  = ([upload_call "https://example.org/cat.png" "Cat" "CAT" None None],
     Throw "Failed to upload metadata to IPFS")
  /\ createToken (sample_world [] 5)
       refusing_parseEther sample_decode sample_account
       "Cat" "CAT" "https://example.org/cat.png" None None None 3 []
     = ([], Throw "Invalid decimal number").
Proof.
  split.
  - pose proof (createToken_without_metadata_sends_nothing
                  (world_with_uploader (fun _ => Return None))
                  sample_parseEther sample_decode sample_account
                  "Cat" "CAT" "https://example.org/cat.png" None None None 3 []
                  _ _ (surjective_pairing _)) as [_ Hnone].
    destruct Hnone as (_ & _ & Hthrow); [discriminate|].
    destruct (Hthrow 100000000000000%N eq_refl) as [Ht Ho]; [now left|].
    rewrite (surjective_pairing (createToken _ _ _ _ _ _ _ _ _ _ _ _)), Ht, Ho.
    reflexivity.
  - pose proof (createToken_without_metadata_sends_nothing
                  (sample_world [] 5)
                  refusing_parseEther sample_decode sample_account
                  "Cat" "CAT" "https://example.org/cat.png" None None None 3 []
                  _ _ (surjective_pairing _)) as [Hparse _].
    destruct (Hparse "Invalid decimal number" eq_refl) as [Ht Ho].
    rewrite (surjective_pairing (createToken _ _ _ _ _ _ _ _ _ _ _ _)), Ht, Ho.
    reflexivity.
Defined.

Lemma createToken_sends_one_newTokenV5_witness :
  exists vanity,
    accepts "8888" (salt vanity) = true
    /\ nth_error sample_create_calls 2
       = Some (newToken_call
                 (newToken_params "Cat" "CAT" "QmSampleCid" (salt vanity)
                    100000000000000 sample_account) 100000000000000).
Proof.
  destruct (createToken_sends_one_newTokenV5
              (sample_world [sample_log_other; sample_log_created] 5)
              sample_parseEther sample_decode sample_account
              "Cat" "CAT" "https://example.org/cat.png" None None None 3 []
              (sample_create_calls ++ [WaitForTransactionReceipt "0x03"])
              (Return sample_created))
    as (calls & Hcalls & _ & Hall).
  { vm_compute. reflexivity. }
  cbn [app] in Hcalls. subst calls.
  destruct (Hall (nth 2 sample_create_calls (RandomBytes 0)))
    as (q & cid & vanity & Hq & Hcid & _ & _ & _ & Hacc & Hc).
  { cbn. right. right. left. reflexivity. }
  { reflexivity. }
  injection Hq as <-. injection Hcid as <-.
  exists vanity. split; [exact Hacc|]. rewrite <- Hc. reflexivity.
Defined.

Lemma createToken_reads_first_TokenCreated_log_witness :
  token_of_receipt sample_decode
    {| logs := [sample_log_other; sample_log_created; sample_log_other] |} "0x03"
  = Return sample_created.
Proof.
  apply (createToken_reads_first_TokenCreated_log sample_decode
           {| logs := [sample_log_other; sample_log_created; sample_log_other] |}
           "0x03" [sample_log_other] [sample_log_other] sample_log_created eq_refl).
  - intros l [<-|[]]. reflexivity.
  - reflexivity.
Defined.

Lemma buyTokens_sends_one_buy_witness :
  fst (buyTokens (sample_world [] 5) sample_parseEther sample_account
         (address sample_result) "0.01" [])
  = [buy_call (address sample_result) sample_account 100000000000000;
     WaitForTransactionReceipt "0x01"]
  /\ fst (buyTokens (sample_world [] 5) refusing_parseEther sample_account
            (address sample_result) "0.01" []) = [].
Proof.
  split.
  - destruct (buyTokens_sends_one_buy
                (sample_world [] 5) sample_parseEther sample_account
                (address sample_result) "0.01" [] _ _ (surjective_pairing _))
      as (calls & Ht & _ & _ & _ & Hret).
    destruct (Hret "0x01") as (value & receipt & Hvalue & -> & _).
    { vm_compute. reflexivity. }
    injection Hvalue as <-. exact Ht.
  - destruct (buyTokens_sends_one_buy
                (sample_world [] 5) refusing_parseEther sample_account
                (address sample_result) "0.01" [] _ _ (surjective_pairing _))
      as (calls & Ht & _ & _ & Hnone & _).
    destruct Hnone as (-> & _); [discriminate|]. exact Ht.
Defined.

Lemma sellTokens_approves_then_sells_witness :
  (exists h1,
     fst (sellTokens (sample_world [] 5) (address sample_result) 5 [])
     = [approve_call (address sample_result) 5; WaitForTransactionReceipt h1;
        sell_call (address sample_result) 5; WaitForTransactionReceipt "0x03"])
  /\ ~ In (sell_call (address sample_result) 5)
          (fst (sellTokens refusing_world (address sample_result) 5 [])).
Proof.
  split.
  - destruct (sellTokens_approves_then_sells
                (sample_world [] 5) (address sample_result) 5 [] _ _
                (surjective_pairing _))
      as (rest & Ht & _ & _ & Hret).
    destruct (Hret "0x03") as (h1 & receipt & -> & _).
    { vm_compute. reflexivity. }
    exists h1. exact Ht.
  - destruct (sellTokens_approves_then_sells
                refusing_world (address sample_result) 5 [] _ _
                (surjective_pairing _))
      as (rest & Ht & _ & Hin & _).
    rewrite Ht. cbn [app]. intros [Heq | Hrest]; [discriminate Heq|].
    destruct (Hin Hrest) as (h1 & _ & _ & _ & Hwrite & _). discriminate Hwrite.
Defined.

End ServiceMore.

(** ** The image service *)

Module ExtensionFacts.

Import JS Image.
Local Open Scope string_scope.

Lemma no_dot_append (s s' : string) : no_dot (s ++ s') = no_dot s && no_dot s'.
Proof.
  induction s as [|c s IH]; [reflexivity|]. cbn [append no_dot].
  now rewrite IH, andb_assoc.
Qed.

Lemma no_dot_before_dot (stem ext : string) : no_dot (stem ++ "." ++ ext) = false.
Proof. rewrite no_dot_append. cbn. apply andb_false_r. Qed.

Lemma replace_extension_match (stem ext : string) :
  ext <> EmptyString -> no_dot ext = true ->
  replace_extension (stem ++ "." ++ ext) = stem ++ ".jpg".
Proof.
  intros Hext Hnodot. induction stem as [|c stem IH].
  - cbn [append replace_extension]. rewrite Hnodot.
    destruct (String.eqb_spec ext EmptyString); [contradiction | reflexivity].
  - cbn [append replace_extension].
    change (stem ++ String "." ext) with (stem ++ "." ++ ext).
    rewrite no_dot_before_dot, andb_false_r. now rewrite IH.
Qed.

Lemma replace_extension_no_dot (fileName : string) :
  no_dot fileName = true -> replace_extension fileName = fileName.
Proof.
  induction fileName as [|c rest IH]; [reflexivity|]. cbn [no_dot replace_extension].
  intros H. apply andb_prop in H as [Hc Hrest].
  apply negb_true_iff in Hc. rewrite Hc. cbn [andb]. now rewrite IH.
Qed.

Lemma replace_extension_final_dot (stem : string) :
  replace_extension (stem ++ ".") = stem ++ ".".
Proof.
  induction stem as [|c stem IH]; [reflexivity|].
  cbn [append replace_extension].
  change (stem ++ ".") with (stem ++ "." ++ EmptyString).
  rewrite no_dot_before_dot, andb_false_r.
  change (stem ++ "." ++ EmptyString) with (stem ++ "."). now rewrite IH.
Qed.

(** A name without a dot, or a stem, a dot and what follows the last dot. *)
Lemma last_dot (fileName : string) :
  no_dot fileName = true
  \/ exists stem ext, fileName = stem ++ "." ++ ext /\ no_dot ext = true.
Proof.
  induction fileName as [|c rest [IH | (stem & ext & -> & Hext)]].
  - now left.
  - destruct (Ascii.eqb_spec c ".") as [->|Hc].
    + right. now exists EmptyString, rest.
    + left. cbn [no_dot]. rewrite IH.
      destruct (Ascii.eqb_spec c "."); [contradiction | reflexivity].
  - right. now exists (String c stem), ext.
Qed.



(** X9: the file name under which the media is pinned.  A name with an
    extension (a last dot followed by at least one character) keeps its
    stem and gets the extension ".jpg"; a name without a dot, or one that
    ends with a dot, is left as it is; a second replacement changes
    nothing.  Every name falls under one of the three cases. *)
Theorem replace_extension_cases (fileName : string) :
  (no_dot fileName = true /\ replace_extension fileName = fileName)
  \/ (exists stem,
        fileName = stem ++ "." /\ replace_extension fileName = fileName)
  \/ (exists stem ext,
        fileName = stem ++ "." ++ ext /\ ext <> EmptyString /\ no_dot ext = true
        /\ replace_extension fileName = stem ++ ".jpg"
        /\ replace_extension (stem ++ ".jpg") = stem ++ ".jpg").
Proof.
  destruct (last_dot fileName) as [Hno | (stem & ext & -> & Hext)].
  - left. split; [exact Hno | now apply replace_extension_no_dot].
  - right. destruct (String.eqb_spec ext EmptyString) as [->|Hne].
    + left. exists stem. split; [reflexivity | apply replace_extension_final_dot].
    + right. exists stem, ext. repeat split; trivial.
      * now apply replace_extension_match.
      * apply (replace_extension_match stem "jpg"); [discriminate | reflexivity].
Qed.

End ExtensionFacts.

Module VideoFacts.

Import JS Image HexFacts.
Local Open Scope string_scope.

Lemma substring_append (a b : string) : substring 0 (String.length a) (a ++ b) = a.
Proof. induction a as [|c a IH]; cbn; [now destruct b | now rewrite IH]. Qed.

Lemma slice_append (a b : string) : slice (String.length a) (a ++ b) = b.
Proof. induction a as [|c a IH]; [reflexivity | exact IH]. Qed.

Lemma substring_slice (n : nat) (s : string) : s = substring 0 n s ++ slice n s.
Proof.
  revert s. induction n as [|n IH]; intros s.
  - cbn. now destruct s.
  - destruct s as [|c s]; [reflexivity|]. cbn. now rewrite <- IH.
Qed.

Lemma includes_spec (s sub : string) :
  includes s sub = true <-> exists pre post, s = pre ++ sub ++ post.
Proof.
  split.
  - induction s as [|c s IH]; cbn [includes]; intros H;
      apply orb_prop in H as [H|H].
    + apply prefix_correct in H. exists EmptyString, (slice (String.length sub) EmptyString).
      cbn [append]. rewrite <- H at 1. apply substring_slice.
    + discriminate.
    + apply prefix_correct in H.
      exists EmptyString, (slice (String.length sub) (String c s)).
      cbn [append]. rewrite <- H at 1. apply substring_slice.
    + destruct (IH H) as (pre & post & ->). now exists (String c pre), post.
  - intros (pre & post & ->). induction pre as [|c pre IH].
    + cbn [append].
      assert (H : prefix sub (sub ++ post) = true)
        by (apply prefix_correct, substring_append).
      destruct (sub ++ post); cbn [includes]; now rewrite H.
    + change (String c pre ++ sub ++ post) with (String c (pre ++ sub ++ post)).
      cbn [includes]. rewrite IH. apply orb_true_r.
Qed.

(** The regular expression of [isVideo], read as a statement: somewhere in
    the string a dot, one of the seven extensions in any letter case, and
    then the end of the string or a question mark. *)
Lemma video_extension_spec (s : string) :
  video_extension s = true
  <-> exists pre ext post,
        s = pre ++ "." ++ ext ++ post
        /\ In (toLowerCase ext) video_extensions
        /\ (post = EmptyString \/ exists query, post = "?" ++ query).
Proof.
  split.
  - induction s as [|c s IH]; [discriminate|]. cbn [video_extension]. intros H.
    apply orb_prop in H as [H|H].
    + apply andb_prop in H as [Hc H]. apply Ascii.eqb_eq in Hc. subst c.
      apply existsb_exists in H as (ext0 & Hin & H).
      unfold extension_here in H. apply andb_prop in H as [Hext Hpost].
      apply String.eqb_eq in Hext.
      exists EmptyString, (substring 0 (String.length ext0) s),
             (slice (String.length ext0) s).
      split; [cbn [append]; f_equal; apply substring_slice|].
      split; [now rewrite Hext|].
      destruct (slice (String.length ext0) s) as [|q rest]; [now left|].
      apply Ascii.eqb_eq in Hpost. subst q. right. now exists rest.
    + destruct (IH H) as (pre & ext & post & -> & Hext & Hpost).
      now exists (String c pre), ext, post.
  - intros (pre & ext & post & -> & Hext & Hpost). induction pre as [|c pre IH].
    + cbn [append video_extension]. rewrite Ascii.eqb_refl. cbn [andb].
      apply orb_true_intro. left. apply existsb_exists.
      exists (toLowerCase ext). split; [exact Hext|].
      unfold extension_here. rewrite length_toLowerCase, substring_append, slice_append.
      rewrite String.eqb_refl. cbn [andb].
      destruct Hpost as [->|(query & ->)]; reflexivity.
    + change (String c pre ++ "." ++ ext ++ post)
        with (String c (pre ++ "." ++ ext ++ post)).
      cbn [video_extension]. rewrite IH. apply orb_true_r.
Qed.

(** X10: what [downloadMediaAndUploadToIPFS] takes for a video: a URL that
    contains "/video/" or "video_", or in which a dot and one of mp4, mov,
    avi, webm, mkv, flv, m3u8, in any letter case, stand at the end or
    before a question mark; and nothing else. *)
Theorem isVideo_spec (mediaUrl : string) :
  isVideo mediaUrl = true
  <-> (exists pre ext post,
         mediaUrl = pre ++ "." ++ ext ++ post
         /\ In (toLowerCase ext) video_extensions
         /\ (post = EmptyString \/ exists query, post = "?" ++ query))
      \/ (exists pre post, mediaUrl = pre ++ "/video/" ++ post)
      \/ (exists pre post, mediaUrl = pre ++ "video_" ++ post).
Proof.
  unfold isVideo. rewrite !orb_true_iff, video_extension_spec, !includes_spec.
  tauto.
Qed.

Lemma isVideo_spec_witness :
  isVideo "https://video.twimg.com/clip.MP4?tag=12" = true
  /\ isVideo "https://pbs.twimg.com/media/cat.mp4.png" = false.
Proof.
  split.
  - apply isVideo_spec. left.
    exists "https://video.twimg.com/clip", "MP4", "?tag=12".
    split; [reflexivity|]. split; [cbn; tauto|]. right. now exists "tag=12".
  - reflexivity.
Defined.

End VideoFacts.

Module ImageFacts.

Import JS Image Pipeline ExtensionFacts.
Local Open Scope string_scope.
Local Open Scope list_scope.

(** *** Runs of the combinators *)

Lemma bind_run {A B : Type} (m : IO A) (k : A -> IO B)
  (t t' : list Operation) (o : Outcome B) :
  bind m k t = (t', o) ->
  (exists t1 a, m t = (t1, Return a) /\ k a t1 = (t', o))
  \/ (exists x, m t = (t', x) /\ failed x o).
Proof.
  unfold bind. destruct (m t) as [t1 [a|e|]]; intros Hrun.
  - left. now exists t1, a.
  - injection Hrun as <- <-. right. now exists (Throw e).
  - injection Hrun as <- <-. right. now exists OutOfFuel.
Qed.

Lemma try_catch_run {A : Type} (m : IO A) (handler : string -> IO A)
  (t t' : list Operation) (o : Outcome A) :
  try_catch m handler t = (t', o) ->
  (exists t1 e, m t = (t1, Throw e) /\ handler e t1 = (t', o))
  \/ (m t = (t', o) /\ forall e, o <> Throw e).
Proof.
  unfold try_catch. destruct (m t) as [t1 [a|e|]]; intros Hrun.
  - injection Hrun as <- <-. right. split; [reflexivity | discriminate].
  - left. now exists t1, e.
  - injection Hrun as <- <-. right. split; [reflexivity | discriminate].
Qed.

Lemma perform_run {A : Type} (op : Operation) (answer : list Operation -> Outcome A)
  (t t' : list Operation) (o : Outcome A) :
  perform op answer t = (t', o) -> t' = t ++ [op] /\ o = answer (t ++ [op]).
Proof. unfold perform. now intros [= <- <-]. Qed.

Section WithOutside.

Variable outside : Outside.
Variable cwd : string.
Variable in_cwd : string -> string.

(** Removing a temporary file adds one operation and does not throw. *)
Lemma unlink_quietly_run (path : string) (t t' : list Operation) (o : Outcome unit) :
  unlink_quietly outside path t = (t', o) ->
  t' = t ++ [Unlink path] /\ (o = Return tt \/ o = OutOfFuel).
Proof.
  unfold unlink_quietly, try_catch, perform, ret.
  destruct (unlink outside (t ++ [Unlink path])) as [[]| |];
    intros [= <- <-]; auto.
Qed.

(** The two removals at the end of [extractVideoFrame], on either path. *)
Lemma cleanup_run {A : Type} (a : A) (t t' : list Operation) (o : Outcome A) :
  bind (unlink_quietly outside (in_cwd "temp_video.mp4"))
    (fun _ => bind (unlink_quietly outside (in_cwd "temp_frame.jpg"))
                   (fun _ => ret a)) t = (t', o) ->
  (t' = t ++ [Unlink (in_cwd "temp_video.mp4")] /\ o = OutOfFuel)
  \/ (t' = t ++ [Unlink (in_cwd "temp_video.mp4"); Unlink (in_cwd "temp_frame.jpg")]
      /\ (o = OutOfFuel \/ o = Return a)).
Proof.
  intros Hrun.
  apply bind_run in Hrun as [(t1 & [] & H1 & Hrun) | (x & H1 & Hfail)].
  - apply unlink_quietly_run in H1 as (-> & _).
    apply bind_run in Hrun as [(t2 & [] & H2 & Hrun) | (x & H2 & Hfail)].
    + apply unlink_quietly_run in H2 as (-> & _).
      injection Hrun as <- <-. right. rewrite <- app_assoc. auto.
    + apply unlink_quietly_run in H2 as (-> & [->| ->]); [contradiction|].
      destruct o; try contradiction. right. rewrite <- app_assoc. auto.
  - apply unlink_quietly_run in H1 as (-> & [->| ->]); [contradiction|].
    destruct o; try contradiction. now left.
Qed.

Lemma ret_run {A : Type} (a : A) (t t' : list Operation) (o : Outcome A) :
  ret a t = (t', o) -> t' = t /\ o = Return a.
Proof. unfold ret. now intros [= <- <-]. Qed.

Lemma lift_run {A : Type} (x : Outcome A) (t t' : list Operation) (o : Outcome A) :
  lift x t = (t', o) -> t' = t /\ o = x.
Proof. unfold lift. now intros [= <- <-]. Qed.

(** The check of [response.ok]. *)
Lemma check_ok_run (response : Response) (message : string)
  (t t' : list Operation) (o : Outcome unit) :
  (if negb (ok response) then throw message else ret tt) t = (t', o) ->
  t' = t
  /\ ((ok response = true /\ o = Return tt)
      \/ (ok response = false /\ o = Throw message)).
Proof.
  destruct (ok response); cbn [negb]; unfold throw, ret; intros [= <- <-]; auto.
Qed.

Lemma failed_Return {A B : Type} (x : Outcome A) (b : B) : ~ failed x (Return b).
Proof. destruct x; exact (fun H => H). Qed.

(** A run of [extractVideoFrame] that stops on a failure, having made the
    first [n] of the operations on the temporary files. *)
Ltac frame_stops Hfail videoBuffer n :=
  eexists; (split; [rewrite <- ?app_assoc; reflexivity|]);
  (split; [reflexivity|]);
  let Hnone := fresh "Hnone" in
  let v := fresh "v" in
  let Hv := fresh "Hv" in
  match type of Hfail with
  | failed _ ?o =>
      assert (Hnone : forall v, o <> Return v)
        by (intros v Hv; rewrite Hv in Hfail; now apply failed_Return in Hfail)
  end;
  split;
  [exists videoBuffer, n, []; split; [reflexivity | left; split; [reflexivity | exact Hnone]]
  |intros v Hv; now elim (Hnone v)].

(** The runs of the body of the [try] of [extractVideoFrame], written [body]
    here: after the download, the operations on the temporary files in the
    order of the source, then the removals; and what a run that returns has
    done. *)
Lemma frame_body_run (videoUrl : string) (body : IO (option (list byte)))
  (t t1 : list Operation) (o1 : Outcome (option (list byte))) :
  let video := in_cwd "temp_video.mp4" in
  let frame := in_cwd "temp_frame.jpg" in
  body =
    bind (perform (Fetch videoUrl) (fetch outside)) (fun response =>
    bind (if negb (ok response)
          then throw ("Failed to download video: " ++ statusText response)
          else ret tt) (fun _ =>
    bind (lift (arrayBuffer response)) (fun videoBuffer =>
    bind (perform (WriteFileSync video videoBuffer) (writeFileSync outside)) (fun _ =>
    bind (perform (Screenshots video cwd "temp_frame.jpg" "00:00:00.000")
                  (screenshots outside)) (fun _ =>
    bind (perform (ReadFileSync frame) (readFileSync outside)) (fun frameBuffer =>
    bind (unlink_quietly outside video) (fun _ =>
    bind (unlink_quietly outside frame) (fun _ =>
    ret (Some frameBuffer))))))))) ->
  body t = (t1, o1) ->
  exists ops,
    t1 = t ++ Fetch videoUrl :: ops
    /\ forallb is_frame_op ops = true
    /\ (exists videoBuffer n cleanup,
          ops = firstn n (frame_steps video frame cwd videoBuffer) ++ cleanup
          /\ ((cleanup = [] /\ forall v, o1 <> Return v)
              \/ (cleanup = [Unlink video] /\ o1 = OutOfFuel)
              \/ (cleanup = [Unlink video; Unlink frame]
                  /\ forall e, o1 <> Throw e)))
    /\ forall v, o1 = Return v ->
         exists response videoBuffer frameBuffer,
           v = Some frameBuffer
           /\ fetch outside (t ++ [Fetch videoUrl]) = Return response
           /\ ok response = true
           /\ arrayBuffer response = Return videoBuffer
           /\ ops = [WriteFileSync video videoBuffer;
                     Screenshots video cwd "temp_frame.jpg" "00:00:00.000";
                     ReadFileSync frame; Unlink video; Unlink frame]
           /\ readFileSync outside
                (t ++ [Fetch videoUrl; WriteFileSync video videoBuffer;
                       Screenshots video cwd "temp_frame.jpg" "00:00:00.000";
                       ReadFileSync frame]) = Return frameBuffer.
Proof.
  intros video frame -> Hrun.
  apply bind_run in Hrun as [(t2 & response & Hf & Hrun) | (x & Hf & Hfail)];
    apply perform_run in Hf as (-> & Hfetch);
    [|frame_stops Hfail (@nil byte) 0].
  apply bind_run in Hrun as [(t2 & [] & Hc & Hrun) | (x & Hc & Hfail)];
    apply check_ok_run in Hc as (-> & Hc);
    [|frame_stops Hfail (@nil byte) 0].
  destruct Hc as [(Hok & _) | (_ & Hc)]; [|discriminate Hc].
  apply bind_run in Hrun as [(t2 & videoBuffer & Hb & Hrun) | (x & Hb & Hfail)];
    apply lift_run in Hb as (-> & Hbuffer);
    [|frame_stops Hfail (@nil byte) 0].
  apply bind_run in Hrun as [(t2 & [] & Hw & Hrun) | (x & Hw & Hfail)];
    apply perform_run in Hw as (-> & Hwrite);
    [|frame_stops Hfail videoBuffer 1].
  apply bind_run in Hrun as [(t2 & [] & Hs & Hrun) | (x & Hs & Hfail)];
    apply perform_run in Hs as (-> & Hshots);
    [|frame_stops Hfail videoBuffer 2].
  apply bind_run in Hrun as [(t2 & frameBuffer & Hr & Hrun) | (x & Hr & Hfail)];
    apply perform_run in Hr as (-> & Hread);
    [|frame_stops Hfail videoBuffer 3].
  rewrite <- !app_assoc in Hread, Hrun. cbn [app] in Hread, Hrun.
  apply cleanup_run in Hrun as [(-> & ->) | (-> & Ho)].
  - eexists. split; [rewrite <- ?app_assoc; reflexivity|].
    split; [reflexivity|]. split; [|discriminate].
    exists videoBuffer, 3, [Unlink video]. split; [reflexivity|].
    right. left. now split.
  - eexists. split; [rewrite <- ?app_assoc; reflexivity|].
    split; [reflexivity|]. split.
    + exists videoBuffer, 3, [Unlink video; Unlink frame]. split; [reflexivity|].
      right. right. split; [reflexivity|]. destruct Ho as [->| ->]; discriminate.
    + intros v ->.
      destruct Ho as [Ho|Ho]; [discriminate|]. injection Ho as ->.
      exists response, videoBuffer, frameBuffer.
      repeat split; auto.
Qed.


(** The trace of [extractVideoFrame]. *)
Lemma extractVideoFrame_run
  (videoUrl : string) (t t' : list Operation) (o : Outcome (option (list byte))) :
  extractVideoFrame outside cwd in_cwd videoUrl t = (t', o) ->
  exists ops,
    t' = t ++ Fetch videoUrl :: ops
    /\ forallb is_frame_op ops = true
    /\ forall e, o <> Throw e.
Proof.
  intros Hrun. unfold extractVideoFrame in Hrun.
  apply try_catch_run in Hrun as [(t1 & e & Hbody & Hhandler) | (Hbody & Hnothrow)].
  - destruct (frame_body_run videoUrl _ t t1 (Throw e) eq_refl Hbody)
      as (ops & -> & Hops & _).
    apply cleanup_run in Hhandler as [(-> & ->) | (-> & Ho)];
      eexists; rewrite <- app_assoc; cbn [app];
      (split; [reflexivity|]); (split; [now rewrite forallb_app, Hops|]).
    + discriminate.
    + destruct Ho as [->| ->]; discriminate.
  - destruct (frame_body_run videoUrl _ t t' o eq_refl Hbody)
      as (ops & -> & Hops & _).
    now exists ops.
Qed.

(** Where the bytes come from: a local path is read, a URL is fetched. *)
Lemma media_buffer_run
  (mediaUrl : string) (t t1 : list Operation) (o1 : Outcome (option (list byte))) :
  media_buffer outside cwd in_cwd mediaUrl t = (t1, o1) ->
  exists source, t1 = t ++ source /\ media_source mediaUrl source.
Proof.
  unfold media_buffer, media_source.
  destruct (isLocalFile mediaUrl); [|destruct (isVideo mediaUrl)]; intros Hrun.
  - apply bind_run in Hrun as [(t2 & buffer & Hr & Hrun) | (x & Hr & _)];
      apply perform_run in Hr as (-> & _).
    + apply ret_run in Hrun as (-> & _). now exists [ReadFile mediaUrl].
    + now exists [ReadFile mediaUrl].
  - apply bind_run in Hrun as [(t2 & frame & He & Hrun) | (x & He & _)];
      apply extractVideoFrame_run in He as (ops & -> & Hops & _);
      [apply ret_run in Hrun as (-> & _)|];
      exists (Fetch mediaUrl :: ops); (split; [reflexivity|]);
      exists ops; repeat split; trivial; discriminate.
  - assert (Hshape : exists rest,
              [Fetch mediaUrl] = Fetch mediaUrl :: rest
              /\ forallb is_frame_op rest = true /\ (false = false -> rest = []))
      by (exists []; auto).
    apply bind_run in Hrun as [(t2 & response & Hf & Hrun) | (x & Hf & _)];
      apply perform_run in Hf as (-> & _); [|now exists [Fetch mediaUrl]].
    apply bind_run in Hrun as [(t2 & [] & Hc & Hrun) | (x & Hc & _)];
      apply check_ok_run in Hc as (-> & _); [|now exists [Fetch mediaUrl]].
    apply bind_run in Hrun as [(t2 & buffer & Hb & Hrun) | (x & Hb & _)];
      apply lift_run in Hb as (-> & _); [|now exists [Fetch mediaUrl]].
    apply ret_run in Hrun as (-> & _). now exists [Fetch mediaUrl].
Qed.

(** The runs of [downloadMediaAndUploadToIPFS]. *)
Lemma downloadMedia_run
  (pinata : bool) (mediaUrl fileName : string)
  (t t' : list Operation) (o : Outcome (option string)) :
  downloadMediaAndUploadToIPFS outside pinata cwd in_cwd mediaUrl fileName t = (t', o) ->
  (forall e, o <> Throw e)
  /\ (pinata = false -> t' = t /\ o = Return None)
  /\ (pinata = true ->
      exists source,
        media_source mediaUrl source
        /\ ((t' = t ++ source /\ forall cid, o <> Return (Some cid))
            \/ exists buffer,
                 t' = t ++ source
                        ++ [UploadFile (replace_extension fileName) "image/jpeg" buffer]
                 /\ forall cid, o = Return (Some cid) ->
                                upload_file outside t' = Return cid)).
Proof.
  unfold downloadMediaAndUploadToIPFS. destruct pinata; cbn [negb]; intros Hrun.
  2: { apply ret_run in Hrun as (-> & ->).
       repeat split; [discriminate | discriminate]. }
  assert (Hinner : forall t1 o1,
            bind (media_buffer outside cwd in_cwd mediaUrl)
              (fun buffer =>
                 match buffer with
                 | Some buffer0 =>
                     bind (perform (UploadFile (replace_extension fileName)
                                      "image/jpeg" buffer0) (upload_file outside))
                          (fun cid => ret (Some cid))
                 | None => ret None
                 end) t = (t1, o1) ->
            exists source,
              media_source mediaUrl source
              /\ ((t1 = t ++ source /\ forall cid, o1 <> Return (Some cid))
                  \/ exists buffer,
                       t1 = t ++ source
                               ++ [UploadFile (replace_extension fileName)
                                     "image/jpeg" buffer]
                       /\ forall cid, o1 = Return (Some cid) ->
                                      upload_file outside t1 = Return cid)).
  { intros t1 o1 Hin.
    apply bind_run in Hin as [(t2 & buffer & Hm & Hin) | (x & Hm & Hfail)];
      apply media_buffer_run in Hm as (source & -> & Hsource);
      exists source; (split; [exact Hsource|]).
    - destruct buffer as [buffer|].
      + right. exists buffer.
        apply bind_run in Hin as [(t3 & cid & Hu & Hin) | (x & Hu & Hfail)];
          apply perform_run in Hu as (-> & Hanswer).
        * apply ret_run in Hin as (-> & ->). rewrite <- app_assoc.
          split; [reflexivity|]. intros cid' [= <-].
          now rewrite <- app_assoc in Hanswer.
        * rewrite <- app_assoc.
          split; [reflexivity|]. intros cid ->. now apply failed_Return in Hfail.
      + apply ret_run in Hin as (-> & ->). left.
        split; [reflexivity | discriminate].
    - left. split; [reflexivity|]. intros cid ->. now apply failed_Return in Hfail. }
  apply try_catch_run in Hrun as [(t1 & e & Hin & Hhandler) | (Hin & Hnothrow)].
  - apply ret_run in Hhandler as (-> & ->).
    split; [discriminate|]. split; [discriminate|]. intros _.
    destruct (Hinner _ _ Hin) as (source & Hsource & Hshape).
    exists source. split; [exact Hsource|].
    destruct Hshape as [(-> & _) | (buffer & -> & _)].
    + left. split; [reflexivity | discriminate].
    + right. exists buffer. split; [reflexivity | discriminate].
  - split; [exact Hnothrow|]. split; [discriminate|]. intros _.
    now apply Hinner.
Qed.



Lemma frame_ops_are_local (ops : list Operation) :
  forallb is_frame_op ops = true ->
  forallb (fun op => negb (is_fetch op) && negb (is_read_file op)
                     && negb (is_upload op)) ops = true.
Proof.
  induction ops as [|op ops IH]; [reflexivity|]. cbn [forallb].
  intros H. apply andb_prop in H as [Hop Hops]. rewrite (IH Hops), andb_true_r.
  now destruct op.
Qed.

(** X13: where [downloadMediaAndUploadToIPFS] takes the bytes from.  It
    never throws.  With a Pinata client, a path that does not start with
    "http://" or "https://" is read from the disk and nothing is
    downloaded; a URL is downloaded, once, and no file is read with
    [readFile]; in both cases at most one upload follows, of a file named
    by the replacement of the extension and typed image/jpeg, and a CID
    returned is the answer to that upload. *)
Theorem downloadMedia_reads_local_and_fetches_remote
  (pinata : bool) (mediaUrl fileName : string)
  (t t' : list Operation) (o : Outcome (option string)) :
  downloadMediaAndUploadToIPFS outside pinata cwd in_cwd mediaUrl fileName t = (t', o) ->
  pinata = true ->
  (forall e, o <> Throw e)
  /\ exists source upload,
       t' = t ++ source ++ upload
       /\ (isLocalFile mediaUrl = true -> source = [ReadFile mediaUrl])
       /\ (isLocalFile mediaUrl = false ->
           exists rest,
             source = Fetch mediaUrl :: rest
             /\ forallb (fun op => negb (is_fetch op) && negb (is_read_file op)
                                   && negb (is_upload op)) rest = true)
       /\ ((upload = [] /\ forall cid, o <> Return (Some cid))
           \/ exists buffer,
                upload = [UploadFile (replace_extension fileName) "image/jpeg" buffer]
                /\ forall cid, o = Return (Some cid) ->
                               upload_file outside t' = Return cid).
Proof.
  intros Hrun Hp.
  apply downloadMedia_run in Hrun as (Hnothrow & _ & Hrun).
  split; [exact Hnothrow|].
  destruct (Hrun Hp) as (source & Hsource & Hshape). unfold media_source in Hsource.
  assert (Hsrc : (isLocalFile mediaUrl = true -> source = [ReadFile mediaUrl])
                 /\ (isLocalFile mediaUrl = false ->
                     exists rest,
                       source = Fetch mediaUrl :: rest
                       /\ forallb (fun op => negb (is_fetch op) && negb (is_read_file op)
                                             && negb (is_upload op)) rest = true)).
  { destruct (isLocalFile mediaUrl).
    - split; [trivial | discriminate].
    - split; [discriminate|]. intros _.
      destruct Hsource as (rest & -> & Hrest & _).
      exists rest. split; [reflexivity | now apply frame_ops_are_local]. }
  destruct Hsrc as (Hlocal & Hremote).
  destruct Hshape as [(-> & Hno) | (buffer & -> & Hanswer)].
  - exists source, []. rewrite app_nil_r. repeat split; auto.
  - exists source, [UploadFile (replace_extension fileName) "image/jpeg" buffer].
    repeat split; auto. right. now exists buffer.
Qed.

End WithOutside.



Lemma downloadMedia_reads_local_and_fetches_remote_witness :
  (exists upload,
     fst (downloadMediaAndUploadToIPFS sample_outside true "/app" sample_in_cwd
            "assets/cat.png" "cat.png" [])
     = ReadFile "assets/cat.png" :: upload)
  /\ exists rest,
       fst (downloadMediaAndUploadToIPFS sample_outside true "/app" sample_in_cwd
              "https://example.org/cat.png" "cat.png" [])
       = Fetch "https://example.org/cat.png" :: rest.
Proof.
  split.
  - destruct (downloadMedia_reads_local_and_fetches_remote
                sample_outside "/app" sample_in_cwd true "assets/cat.png" "cat.png"
                [] _ _ (surjective_pairing _) eq_refl)
      as (_ & source & upload & Ht & Hlocal & _).
    rewrite (Hlocal eq_refl) in Ht. exists upload. exact Ht.
  - destruct (downloadMedia_reads_local_and_fetches_remote
                sample_outside "/app" sample_in_cwd true
                "https://example.org/cat.png" "cat.png"
                [] _ _ (surjective_pairing _) eq_refl)
      as (_ & source & upload & Ht & _ & Hremote & _).
    destruct (Hremote eq_refl) as (rest & -> & _).
    exists (rest ++ upload). exact Ht.
Defined.

End ImageFacts.

(** ** The environment *)

Module EnvFacts.

Import JS Flap Env Pipeline.
Local Open Scope string_scope.

Lemma getEnv_set (process_env : ProcessEnv) (key : string) (required : bool) :
  is_set process_env key = true ->
  exists v, process_env key = Some v /\ v <> EmptyString
            /\ getEnv process_env key required = Return v.
Proof.
  unfold is_set, getEnv. destruct (process_env key) as [v|]; [|discriminate].
  intros H. apply negb_true_iff in H. exists v. rewrite H. cbn [andb or_else].
  rewrite H. repeat split. intros ->. discriminate.
Qed.

Lemma getEnv_missing (process_env : ProcessEnv) (key : string) :
  is_set process_env key = false ->
  getEnv process_env key true = Throw ("CRITICAL ERROR: Missing ENV variable: " ++ key).
Proof.
  unfold is_set, getEnv. destruct (process_env key) as [v|]; [|reflexivity].
  intros H. apply negb_false_iff in H. now rewrite H.
Qed.

Lemma getEnv_optional (process_env : ProcessEnv) (key : string) :
  exists v,
    getEnv process_env key false = Return v
    /\ (is_set process_env key = true -> process_env key = Some v)
    /\ (is_set process_env key = false <-> v = EmptyString).
Proof.
  unfold is_set, getEnv. rewrite andb_false_r.
  destruct (process_env key) as [v|]; cbn [or_else].
  - destruct (String.eqb_spec v EmptyString) as [->|Hv]; cbn [negb].
    + exists EmptyString. repeat split; discriminate.
    + exists v. repeat split; try discriminate. intros ->. now elim Hv.
  - exists EmptyString. repeat split; discriminate.
Qed.

(** X14: the configuration is loaded exactly when X_BEARER_TOKEN,
    GROQ_API_KEY and BSC_PRIVATE_KEY_HEX are set and not empty; otherwise
    loading throws, naming the first of the three, in this order, that is
    missing.  When it is loaded the three values are those of the
    environment, the two RPC URLs are never empty (an unset or empty
    BSC_RPC_URL gives the default node), and the Pinata client is created
    exactly when PINATA_JWT is set and not empty. *)
Theorem load_needs_three_variables (process_env : ProcessEnv) :
  let set := is_set process_env in
  let missing key := Throw ("CRITICAL ERROR: Missing ENV variable: " ++ key) in
  (set "X_BEARER_TOKEN" = false -> load process_env = missing "X_BEARER_TOKEN")
  /\ (set "X_BEARER_TOKEN" = true -> set "GROQ_API_KEY" = false ->
      load process_env = missing "GROQ_API_KEY")
  /\ (set "X_BEARER_TOKEN" = true -> set "GROQ_API_KEY" = true ->
      set "BSC_PRIVATE_KEY_HEX" = false ->
      load process_env = missing "BSC_PRIVATE_KEY_HEX")
  /\ (set "X_BEARER_TOKEN" = true -> set "GROQ_API_KEY" = true ->
      set "BSC_PRIVATE_KEY_HEX" = true ->
      exists env,
        load process_env = Return env
        /\ process_env "X_BEARER_TOKEN" = Some (X_BEARER_TOKEN env)
        /\ process_env "GROQ_API_KEY" = Some (AI_GROQ_KEY env)
        /\ process_env "BSC_PRIVATE_KEY_HEX" = Some (BSC_PRIVATE_KEY env)
        /\ BSC_RPC env <> EmptyString
        /\ SOLANA_RPC env <> EmptyString
        /\ (set "BSC_RPC_URL" = false ->
            BSC_RPC env = "https://bsc-dataseed1.binance.org")
        /\ (set "BSC_RPC_URL" = true ->
            process_env "BSC_RPC_URL" = Some (BSC_RPC env))
        /\ Image.initPinata env = set "PINATA_JWT").
Proof.
  intros set missing. unfold load.
  destruct (getEnv_optional process_env "BSC_RPC_URL") as (rpc & Hrpc & Hrpc1 & Hrpc0).
  destruct (getEnv_optional process_env "BSCSCAN_API_KEY") as (scan & Hscan & _).
  destruct (getEnv_optional process_env "PINATA_JWT") as (jwt & Hjwt & _ & Hjwt0).
  destruct (getEnv_optional process_env "SOLANA_RPC_URL") as (srpc & Hsrpc & _).
  destruct (getEnv_optional process_env "SOLANA_PRIVATE_KEY_BASE58") as (skey & Hskey & _).
  split; [intros H; now rewrite (getEnv_missing _ _ H)|].
  split.
  { intros H1 H2. destruct (getEnv_set _ _ true H1) as (v1 & _ & _ & ->).
    cbn [bindO]. now rewrite (getEnv_missing _ _ H2). }
  split.
  { intros H1 H2 H3.
    destruct (getEnv_set _ _ true H1) as (v1 & _ & _ & ->).
    destruct (getEnv_set _ _ true H2) as (v2 & _ & _ & ->).
    cbn [bindO]. rewrite Hrpc. cbn [bindO]. now rewrite (getEnv_missing _ _ H3). }
  intros H1 H2 H3.
  destruct (getEnv_set _ _ true H1) as (v1 & E1 & _ & ->).
  destruct (getEnv_set _ _ true H2) as (v2 & E2 & _ & ->).
  destruct (getEnv_set _ _ true H3) as (v3 & E3 & _ & ->).
  cbn [bindO]. rewrite Hrpc. cbn [bindO]. rewrite Hscan, Hjwt, Hsrpc, Hskey.
  cbn [bindO]. eexists. split; [reflexivity|].
  cbn [X_BEARER_TOKEN AI_GROQ_KEY BSC_PRIVATE_KEY BSC_RPC SOLANA_RPC PINATA_JWT].
  repeat split; trivial.
  - cbn [or_else]. destruct (String.eqb_spec rpc EmptyString); [discriminate | assumption].
  - cbn [or_else]. destruct (String.eqb_spec srpc EmptyString); [discriminate | assumption].
  - intros H. apply Hrpc0 in H. now subst rpc.
  - intros H. rewrite (Hrpc1 H). cbn [or_else].
    destruct (String.eqb_spec rpc EmptyString) as [Heq|]; [|reflexivity].
    apply Hrpc0 in Heq. fold set in Heq. congruence.
  - unfold Image.initPinata. cbn [PINATA_JWT]. fold set in Hjwt0.
    destruct (set "PINATA_JWT").
    + destruct (String.eqb_spec jwt EmptyString) as [Heq|]; [|reflexivity].
      apply Hjwt0 in Heq. discriminate.
    + now rewrite (proj1 Hjwt0 eq_refl).
Qed.

Lemma load_needs_three_variables_witness :
  (exists env,
     load sample_process_env = Return env
     /\ BSC_RPC env = "https://bsc-dataseed1.binance.org"
     /\ Image.initPinata env = false)
  /\ load (fun _ => None)
     = Throw "CRITICAL ERROR: Missing ENV variable: X_BEARER_TOKEN".
Proof.
  destruct (load_needs_three_variables sample_process_env) as (_ & _ & _ & Hok).
  destruct (load_needs_three_variables (fun _ => None)) as (Hmissing & _).
  split; [|now apply Hmissing].
  destruct Hok as (env & Hload & _ & _ & _ & _ & _ & Hrpc & _ & Hpinata);
    [reflexivity..|].
  exists env. repeat split; [exact Hload | now apply Hrpc | exact Hpinata].
Defined.

End EnvFacts.

(** ** The services together *)

Module PipelineFacts.

Import JS Viem Flap Chain Pipeline ServiceMore ImageFacts EnvFacts.
Local Open Scope string_scope.
Local Open Scope list_scope.

Lemma uploadFlapMetadata_no_throw
  (outside : Image.Outside) (pinata : bool) (cwd : string) (in_cwd : string -> string)
  (imageUrl name symbol description : string) (twitter telegram website : option string)
  (t : list Image.Operation) (e : string) :
  snd (Image.uploadFlapMetadata outside pinata cwd in_cwd
         imageUrl name symbol description twitter telegram website t) <> Throw e.
Proof.
  unfold Image.uploadFlapMetadata. destruct pinata; cbn [negb]; [|discriminate].
  unfold Image.try_catch, Image.ret.
  destruct (Image.bind _ _ t) as [t1 [a|e'|]]; discriminate.
Qed.

(** The answer of the image service to the upload call of [createToken]. *)
Lemma image_uploader_answer
  (outside : Image.Outside) (pinata : bool) (cwd : string) (in_cwd : string -> string)
  (imageUrl name symbol : string) (tweetUrl description : option string)
  (t : list Call) :
  image_uploader outside pinata cwd in_cwd
    (t ++ [upload_call imageUrl name symbol tweetUrl description])
  = snd (Image.uploadFlapMetadata outside pinata cwd in_cwd imageUrl name symbol
           (or_else description (name ++ " - Inspired by trending topics"))
           tweetUrl None None []).
Proof. unfold image_uploader. now rewrite last_last. Qed.

Lemma load_pinata (process_env : Env.ProcessEnv) (env : Env.ENV) :
  Env.load process_env = Return env ->
  Image.initPinata env = is_set process_env "PINATA_JWT".
Proof.
  unfold Env.load. intros Hload.
  destruct (getEnv_optional process_env "PINATA_JWT") as (jwt & Hjwt & _ & Hjwt0).
  rewrite Hjwt in Hload.
  repeat match type of Hload with
         | bindO ?x _ = _ => destruct x; cbn [bindO] in Hload; try discriminate
         end.
  injection Hload as <-. unfold Image.initPinata. cbn [Env.PINATA_JWT].
  destruct (is_set process_env "PINATA_JWT").
  - destruct (String.eqb_spec jwt EmptyString) as [Heq|]; [|reflexivity].
    apply Hjwt0 in Heq. discriminate.
  - now rewrite (proj1 Hjwt0 eq_refl).
Qed.

Section WithServices.

Variable outside : Image.Outside.
Variable cwd : string.
Variable in_cwd : string -> string.
Variable world : World.
Variable parseEther : string -> Outcome N.
Variable decodeEventLog : Log -> option DecodedEvent.
Variable account_address : Address.

(** X15: with the image service of [image.ts] as uploader, whatever goes
    wrong in the upload (download refused, Pinata error, no client) reaches
    the caller of [createToken] as "Failed to upload metadata to IPFS": a
    run that stops after the upload call ends with this exception, unless
    the upload never completes. *)
Theorem createToken_reports_upload_failure
  (pinata : bool)
  (name symbol imageUrl : string) (tweetUrl description initialBuyAmount : option string)
  (fuel : nat) (t t' : list Call) (o : Outcome CreatedToken) :
  uploadFlapMetadata world = image_uploader outside pinata cwd in_cwd ->
  createToken world parseEther decodeEventLog account_address
    name symbol imageUrl tweetUrl description initialBuyAmount fuel t = (t', o) ->
  t' = t ++ [upload_call imageUrl name symbol tweetUrl description] ->
  o = Throw "Failed to upload metadata to IPFS" \/ o = OutOfFuel.
Proof.
  intros Hworld Hrun Hstop.
  destruct (createToken_stages _ _ _ _ _ _ _ _ _ _ _ _ _ _ Hrun)
    as [(Ht & _) | (q & _ & Hstage)].
  { rewrite Ht in Hstop. apply (f_equal (@List.length Call)) in Hstop.
    rewrite length_app in Hstop. cbn in Hstop. lia. }
  cbv zeta in Hstage.
  destruct Hstage as [(_ & Hup) | (cid & _ & _ & Hstage)].
  - destruct Hup as [Hfail | (_ & ->)]; [|now left].
    rewrite Hworld, image_uploader_answer in Hfail.
    destruct (snd (Image.uploadFlapMetadata _ _ _ _ _ _ _ _ _ _ _ _)) as [a|e|] eqn:Hanswer.
    + contradiction.
    + now apply uploadFlapMetadata_no_throw in Hanswer.
    + destruct o; try contradiction. now right.
  - exfalso.
    assert (Hlen : List.length t' = List.length t + 1)
      by (rewrite Hstop, length_app; reflexivity).
    destruct Hstage as [(Ht & _) | (v & _ & [(Ht & _) | (h & _ & Ht & _)])];
      rewrite Ht, length_app in Hlen; cbn in Hlen; lia.
Qed.

(** X16: without PINATA_JWT in the environment, [createToken] cannot
    create a token: the image service has no Pinata client, the upload
    returns null, and the run ends before any random bytes are drawn or any
    transaction is sent, with "Failed to upload metadata to IPFS" whenever
    the amount parses. *)
Theorem createToken_needs_pinata_jwt
  (process_env : Env.ProcessEnv) (env : Env.ENV)
  (name symbol imageUrl : string) (tweetUrl description initialBuyAmount : option string)
  (fuel : nat) (t t' : list Call) (o : Outcome CreatedToken) :
  Env.load process_env = Return env ->
  is_set process_env "PINATA_JWT" = false ->
  uploadFlapMetadata world
  = image_uploader outside (Image.initPinata env) cwd in_cwd ->
  createToken world parseEther decodeEventLog account_address
    name symbol imageUrl tweetUrl description initialBuyAmount fuel t = (t', o) ->
  let up := upload_call imageUrl name symbol tweetUrl description in
  (t' = t \/ t' = t ++ [up])
  /\ (forall r, o <> Return r)
  /\ (forall quoteAmount,
        parseEther (buy_amount initialBuyAmount) = Return quoteAmount ->
        t' = t ++ [up] /\ o = Throw "Failed to upload metadata to IPFS").
Proof.
  intros Hload Hjwt Hworld Hrun up.
  rewrite (load_pinata _ _ Hload), Hjwt in Hworld.
  assert (Hnull : uploadFlapMetadata world (t ++ [up]) = Return None).
  { rewrite Hworld. unfold up. now rewrite image_uploader_answer. }
  destruct (createToken_stages _ _ _ _ _ _ _ _ _ _ _ _ _ _ Hrun)
    as [(-> & Hfail) | (q & Hparse & Hstage)].
  - split; [now left|]. split; [apply (failed_not_Return _ _ Hfail)|].
    intros q Hq. rewrite Hq in Hfail. contradiction.
  - cbv zeta in Hstage. fold up in Hstage. rewrite Hnull in Hstage.
    destruct Hstage as [(-> & Hup) | (cid & Hcid & _)]; [|discriminate Hcid].
    destruct Hup as [Hfail | (_ & ->)]; [contradiction|].
    split; [now right|]. split; [discriminate|]. intros _ _. now split.
Qed.

End WithServices.

Lemma createToken_reports_upload_failure_witness :
  snd (createToken (image_world failing_outside true)
         sample_parseEther sample_decode sample_account
         "Cat" "CAT" "https://example.org/cat.png" None None None 3 [])
  = Throw "Failed to upload metadata to IPFS"
  \/ snd (createToken (image_world failing_outside true)
            sample_parseEther sample_decode sample_account
            "Cat" "CAT" "https://example.org/cat.png" None None None 3 [])
     = OutOfFuel.
Proof.
  apply (createToken_reports_upload_failure
           failing_outside "/app" sample_in_cwd (image_world failing_outside true)
           sample_parseEther sample_decode sample_account true
           "Cat" "CAT" "https://example.org/cat.png" None None None 3 []
           _ _ eq_refl (surjective_pairing _)).
  vm_compute. reflexivity.
Defined.

Lemma createToken_needs_pinata_jwt_witness :
  createToken (image_world sample_outside (Image.initPinata sample_env))
    sample_parseEther sample_decode sample_account
    "Cat" "CAT" "https://example.org/cat.png" None None None 3 []
  = ([upload_call "https://example.org/cat.png" "Cat" "CAT" None None],
     Throw "Failed to upload metadata to IPFS").
Proof.
  destruct (createToken_needs_pinata_jwt
              sample_outside "/app" sample_in_cwd
              (image_world sample_outside (Image.initPinata sample_env))
              sample_parseEther sample_decode sample_account
              sample_process_env sample_env
              "Cat" "CAT" "https://example.org/cat.png" None None None 3 []
              _ _ eq_refl eq_refl eq_refl (surjective_pairing _))
    as (_ & _ & Hthrow).
  destruct (Hthrow 100000000000000%N eq_refl) as [Ht Ho].
  rewrite (surjective_pairing (createToken _ _ _ _ _ _ _ _ _ _ _ _)), Ht, Ho.
  reflexivity.
Defined.

End PipelineFacts.
